(** * Parahod: week resolution, recurrence parsing and admin commands

    A shallow embedding of [main.py] of the Parahod timetable bot, and the
    properties of its week calculator, recurrence parser, lesson matcher,
    room validator, add-lesson grammar and delete command.

    The first part holds the program: Python's strings and the few Unicode
    tables it consults, then the functions of [main.py] under their own
    names.  The second part, from "Properties" on, states and proves what
    the specification says about them. *)

From Stdlib Require Import ZArith NArith List Bool Lia String Ascii Sorting.Sorted.
From stdpp Require Import base tactics option list sorting gmap.

Local Open Scope Z_scope.

(** ** Python strings

    A Python [str] is a sequence of Unicode code points.  Code points are
    natural numbers; a source literal is written as its UTF-8 text and
    decoded by [utf8]. *)

Module Str.

Abbreviation char := N.
Abbreviation str := (list N).

(** UTF-8 decoding of a literal: [need] continuation bytes are still
    expected for the code point accumulated in [acc]. *)
Fixpoint utf8_go (need : nat) (acc : N) (bs : list N) : str :=
  match bs with
  | [] => []
  | b :: bs' =>
    match need with
    | O =>
      if (b <? 128)%N then b :: utf8_go 0 0%N bs'
      else if (b <? 224)%N then utf8_go 1 (b - 192)%N bs'
      else if (b <? 240)%N then utf8_go 2 (b - 224)%N bs'
      else utf8_go 3 (b - 240)%N bs'
    | S k =>
      let acc' := (acc * 64 + (b - 128))%N in
      match k with
      | O => acc' :: utf8_go 0 0%N bs'
      | S _ => utf8_go k acc' bs'
      end
    end
  end.

Definition utf8 (s : string) : str :=
  utf8_go 0 0%N (map N_of_ascii (list_ascii_of_string s)).

(** Literals are decoded where they are written: [U "ab"] stands for the
    list of its code points, [ch "a"] for the first of them. *)
Notation "'U' s" :=
  (ltac:(let v := eval vm_compute in (utf8 s) in exact v))
  (at level 10, s at level 0, only parsing).
Notation "'ch' s" :=
  (ltac:(let v := eval vm_compute in (hd 0%N (utf8 s)) in exact v))
  (at level 10, s at level 0, only parsing).

Definition len {A} (l : list A) : Z := Z.of_nat (length l).

(** [x in (a, b, ...)] on strings. *)
Definition str_in (x : str) (l : list str) : bool := bool_decide (x ∈ l).

(** *** Whitespace

    [str.isspace], [str.strip], [str.split] without a separator and the
    regular-expression class [\s] all use the same set of code points. *)
Definition is_space (c : char) : bool :=
  ((9 <=? c) && (c <=? 13) || (28 <=? c) && (c <=? 32)
   || (c =? 133) || (c =? 160) || (c =? 5760)
   || (8192 <=? c) && (c <=? 8202)
   || (c =? 8232) || (c =? 8233) || (c =? 8239) || (c =? 8287)
   || (c =? 12288))%N.

(** The longest prefix whose characters satisfy [p], and the rest. *)
Fixpoint span (p : char -> bool) (s : str) : str * str :=
  match s with
  | [] => ([], [])
  | c :: s' =>
    if p c then let '(a, b) := span p s' in (c :: a, b) else ([], s)
  end.

Definition lstrip_with (p : char -> bool) (s : str) : str := snd (span p s).
Definition rstrip_with (p : char -> bool) (s : str) : str :=
  rev (lstrip_with p (rev s)).
Definition strip_with (p : char -> bool) (s : str) : str :=
  rstrip_with p (lstrip_with p s).

(** [s.strip()] *)
Definition strip (s : str) : str := strip_with is_space s.

(** [s.split()]: maximal runs of non-whitespace; [cur] is the run being
    read, reversed. *)
Fixpoint split_ws_go (cur : str) (s : str) : list str :=
  match s with
  | [] => match cur with [] => [] | _ => [rev cur] end
  | c :: s' =>
    if is_space c
    then match cur with
         | [] => split_ws_go [] s'
         | _ => rev cur :: split_ws_go [] s'
         end
    else split_ws_go (c :: cur) s'
  end.

Definition split_ws (s : str) : list str := split_ws_go [] s.

(** [s.startswith(p)] *)
Fixpoint startswith (p s : str) : bool :=
  match p, s with
  | [], _ => true
  | _ :: _, [] => false
  | a :: p', b :: s' => (a =? b)%N && startswith p' s'
  end.

(** [s.split(sep, maxsplit)] for a non-empty [sep] (Python raises
    ValueError on an empty one).  [budget] is the number of splits still
    allowed ([None]: no limit); [skip] counts the characters of a separator
    just matched that are still to be passed over. *)
Fixpoint split_go (sep : str) (skip : nat) (budget : option nat)
    (cur : str) (s : str) : list str :=
  match s with
  | [] => [rev cur]
  | c :: s' =>
    match skip with
    | S k => split_go sep k budget cur s'
    | O =>
      let allowed := match budget with Some O => false | _ => true end in
      if allowed && startswith sep s
      then rev cur :: split_go sep (length sep - 1) (pred <$> budget) [] s'
      else split_go sep 0 budget (c :: cur) s'
    end
  end.

Definition split (sep : str) (maxsplit : option nat) (s : str) : list str :=
  split_go sep 0 maxsplit [] s.

(** [sep.join(l)] *)
Fixpoint join (sep : str) (l : list str) : str :=
  match l with
  | [] => []
  | [x] => x
  | x :: l' => x ++ sep ++ join sep l'
  end.

(** [s.find(sub)]: the index of the first occurrence, or -1. *)
Fixpoint find_go (sub : str) (i : Z) (s : str) : Z :=
  if startswith sub s then i
  else match s with
       | [] => -1
       | _ :: s' => find_go sub (i + 1) s'
       end.

Definition find (sub s : str) : Z := find_go sub 0 s.

(** Slices [l[lo:hi]] with Python's treatment of negative and
    out-of-range bounds. *)
Definition slice_index (n i : Z) : Z :=
  if i <? 0 then Z.max (i + n) 0 else Z.min i n.

Definition slice {A} (lo hi : option Z) (l : list A) : list A :=
  let n := len l in
  let a := slice_index n (default 0 lo) in
  let b := slice_index n (default n hi) in
  take (Z.to_nat (b - a)) (drop (Z.to_nat a) l).

(** [s.replace(old, new)] for a non-empty [old]. *)
Fixpoint replace_go (old new : str) (skip : nat) (s : str) : str :=
  match s with
  | [] => []
  | c :: s' =>
    match skip with
    | S k => replace_go old new k s'
    | O =>
      if startswith old s
      then new ++ replace_go old new (length old - 1) s'
      else c :: replace_go old new 0 s'
    end
  end.

Definition replace (old new s : str) : str := replace_go old new 0 s.

(** [str(n)] for an integer. *)
Fixpoint digits_go (fuel : nat) (n : Z) (acc : str) : str :=
  match fuel with
  | O => acc
  | S f =>
    let acc' := (48 + Z.to_N (n mod 10))%N :: acc in
    if n <? 10 then acc' else digits_go f (n / 10) acc'
  end.

Definition str_of_int (n : Z) : str :=
  let fuel := S (Z.to_nat (Z.log2 (Z.abs n))) in
  if n <? 0 then ch "-" :: digits_go fuel (- n) [] else digits_go fuel n [].

End Str.
Import Str.

Example U_cyrillic : U "д/о" = [1076; 47; 1086]%N.
Proof. reflexivity. Qed.

Example split_ws_ex :
  split_ws (U "  a  bc ") = [U "a"; U "bc"].
Proof. reflexivity. Qed.

Example split_ex :
  split (U "bc") (Some 1%nat) (U "abcabc") = [U "a"; U "abc"]
  /\ split (U ",") None (U "a,b,,c") = [U "a"; U "b"; U ""; U "c"]
  /\ split (U ",") None (U "") = [U ""].
Proof. repeat split. Qed.

Example slice_ex :
  slice (Some 2) (Some 1) (U "abc") = [] /\ slice (Some 1) None (U "abc") = U "bc"
  /\ slice None (Some (-1)) (U "abc") = U "ab".
Proof. repeat split. Qed.

Example str_of_int_ex :
  str_of_int 4 = U "4" /\ str_of_int (-12) = U "-12" /\ str_of_int 0 = U "0"
  /\ str_of_int 1000 = U "1000".
Proof. repeat split. Qed.

(** ** The Unicode database

    [str.lower], the class [\d] and [int] consult the interpreter's Unicode
    tables.  On ASCII and the basic Cyrillic block U+0400..U+045F, which
    hold every literal of the program, the tables are fixed and written out
    here; everywhere else they are whatever the database says. *)

Class UnicodeData := {
  unicode_lower : str -> str;
  unicode_decimal : char -> option Z
}.

Definition basic (c : char) : bool :=
  ((c <? 128) || (1024 <=? c) && (c <=? 1119))%N.

Definition lower_basic (c : char) : char :=
  if ((65 <=? c) && (c <=? 90))%N then (c + 32)%N
  else if ((1024 <=? c) && (c <=? 1039))%N then (c + 80)%N
  else if ((1040 <=? c) && (c <=? 1071))%N then (c + 32)%N
  else c.

Section Unicode.
Context `{UnicodeData}.

(** [s.lower()] *)
Definition lower (s : str) : str :=
  if forallb basic s then map lower_basic s else unicode_lower s.

(** The value of a decimal digit (general category Nd).  Below U+0660 the
    only ones are 0..9, and no whitespace character is one. *)
Definition decimal (c : char) : option Z :=
  if (c <? 1632)%N
  then if ((48 <=? c) && (c <=? 57))%N then Some (Z.of_N c - 48) else None
  else if is_space c then None else unicode_decimal c.

(** [\d] *)
Definition is_decimal (c : char) : bool := bool_decide (is_Some (decimal c)).

(** The value of a run of decimal digits. *)
Definition int_digits (ds : str) : Z :=
  fold_left (fun acc c => 10 * acc + default 0 (decimal c)) ds 0.

(** The whitespace [int] skips around the numeral: all of it but
    U+001C..U+001F. *)
Definition int_space (c : char) : bool :=
  is_space c && negb ((28 <=? c) && (c <=? 31))%N.

(** The digits of [int]'s argument, with single underscores allowed
    between them.  [acc] is [None] until a digit has been read; [us] tells
    that the last character was an underscore. *)
Fixpoint int_body (acc : option Z) (us : bool) (s : str) : option Z :=
  match s with
  | [] => if us then None else acc
  | c :: s' =>
    if (c =? ch "_")%N
    then match acc with
         | None => None
         | Some _ => if us then None else int_body acc true s'
         end
    else match decimal c with
         | Some d => int_body (Some (10 * default 0 acc + d)) false s'
         | None => None
         end
  end.

(** [int(s)], [None] for ValueError: optional surrounding whitespace, an
    optional sign, then the digits.  The interpreter's cap on the length of
    the numeral is left out. *)
Definition int (s : str) : option Z :=
  match strip_with int_space s with
  | c :: body =>
    if (c =? ch "-")%N then Z.opp <$> int_body None false body
    else if (c =? ch "+")%N then int_body None false body
    else int_body None false (c :: body)
  | [] => None
  end.

End Unicode.

(** ** Constants *)

(** [SLOTS]: the fixed slots and their time ranges. *)
Definition SLOTS : list (Z * str) :=
  [(1, U "8:30-10:05"); (2, U "10:20-11:55");
   (3, U "12:10-13:45"); (4, U "14:45-16:20")].

(** [slot in SLOTS] *)
Definition in_SLOTS (slot : Z) : bool := bool_decide (slot ∈ SLOTS.*1).

Definition RU_WEEKDAYS : list str :=
  [U "понедельник"; U "вторник"; U "среда"; U "четверг"; U "пятница";
   U "суббота"; U "воскресенье"].

(** ** Room validator *)

Definition ROOM_CANON : list (str * str) :=
  [(U "д/о", U "д/о"); (U "с/зал", U "с/зал")].

Definition msg_room_missing : str :=
  U "Не указана аудитория. Разрешены только цифры, 'д/о' или 'с/зал'.".
Definition msg_room_one_word : str :=
  U "Аудитория должна быть одним словом: цифры, 'д/о' или 'с/зал'.".
Definition msg_room_invalid : str :=
  U "Недопустимая аудитория. Разрешены только цифры, 'д/о' или 'с/зал'.".

Section Room.
Context `{UnicodeData}.

(** [ROOM_DIGITS_RE.fullmatch]: the whole string is one to five decimal
    digits. *)
Definition ROOM_DIGITS_RE (s : str) : bool :=
  (1 <=? len s) && (len s <=? 5) && forallb is_decimal s.

Definition _normalize_room_token (tok : str) : str :=
  replace (U "\") (U "/") (lower (strip tok)).

(** The source returns a pair: (room, None) is [inl room] here and
    (None, message) is [inr message].  Every message is a non-empty
    literal, so the caller's test [if room_err] is the test for [inr].
    [start_idx] is 0 or 1 at both call sites; the guard keeps
    [tokens[start_idx]] in range. *)
Definition _parse_room_from_tokens (tokens : list str) (start_idx : nat)
    : str + str :=
  if Z.of_nat start_idx >=? len tokens then inr msg_room_missing
  else if negb (len (slice (Some (Z.of_nat start_idx)) None tokens) =? 1)
  then inr msg_room_one_word
  else
    let raw := _normalize_room_token (nth start_idx tokens []) in
    match list_find (fun kv => kv.1 = raw) ROOM_CANON with
    | Some (_, (_, canon)) => inl canon
    | None =>
      if ROOM_DIGITS_RE raw then inl raw else inr msg_room_invalid
    end.

End Room.

(** ** Model *)

Record Lesson := {
  title : str;
  room : str;
  weeks_spec : str;
  weeks : list Z;
  parity : option str
}.

(** ** Parsing the weeks *)

(** [range(a, b)] *)
Definition range (a b : Z) : list Z := seqZ a (b - a).

Section Weeks.
Context `{UnicodeData}.

(** [range_re.match]: optional blanks, digits, a dash, digits, blanks
    around each, up to the end of the string.  The groups are returned.
    The classes [\s], [\d] and the dash exclude one another, so reading
    each run greedily loses no match (lemmas [range_re_sound] and
    [range_re_complete]); [$] adds nothing after a final [\s*], which
    takes a last newline anyway. *)
Definition range_re (s : str) : option (str * str) :=
  let '(g1, s1) := span is_decimal (lstrip_with is_space s) in
  match g1, lstrip_with is_space s1 with
  | _ :: _, c :: s2 =>
    if (c =? ch "-")%N then
      let '(g2, s3) := span is_decimal (lstrip_with is_space s2) in
      match g2, lstrip_with is_space s3 with
      | _ :: _, [] => Some (g1, g2)
      | _, _ => None
      end
    else None
  | _, _ => None
  end.

(** [num_re.match]: blanks, digits, blanks (lemmas [num_re_sound] and
    [num_re_complete]). *)
Definition num_re (s : str) : option str :=
  let '(g, s1) := span is_decimal (lstrip_with is_space s) in
  match g, lstrip_with is_space s1 with
  | _ :: _, [] => Some g
  | _, _ => None
  end.

(** [if 1 <= w <= max_week: weeks.add(w)] *)
Definition add_week (max_week : Z) (weeks : gset Z) (w : Z) : gset Z :=
  if (1 <=? w) && (w <=? max_week) then {[w]} ∪ weeks else weeks.

(** One turn of the loop over the comma-separated parts.  [int] of a group
    of [\d+] cannot fail and is [int_digits] (lemmas [range_re_groups] and
    [num_re_group]). *)
Definition parse_weeks_part (max_week : Z) (weeks : gset Z) (part : str)
    : gset Z :=
  let part := strip part in
  match part with
  | [] => weeks
  | _ =>
    match range_re part with
    | Some (g1, g2) =>
      let a := int_digits g1 in
      let b := int_digits g2 in
      let '(a, b) := if a >? b then (b, a) else (a, b) in
      fold_left (add_week max_week) (range a (b + 1)) weeks
    | None =>
      match num_re part with
      | Some g => add_week max_week weeks (int_digits g)
      | None => weeks
      end
    end
  end.

Definition parse_weeks (spec : str) (max_week : Z) : list Z :=
  match spec with
  | [] => range 1 (max_week + 1)
  | _ =>
    let weeks :=
      fold_left (parse_weeks_part max_week) (split (U ",") None spec) ∅ in
    if decide (weeks = ∅) then range 1 (max_week + 1)
    else merge_sort Z.le (elements weeks)
  end.

Definition detect_parity (token : str) : option str :=
  let t := replace (U " ") (U "") (lower token) in
  if str_in t [U "н/н"; U "н-н"; U "нн"; U "odd"] then Some (U "odd")
  else if str_in t [U "ч/н"; U "ч-н"; U "чн"; U "even"] then Some (U "even")
  else None.

End Weeks.

(** ** Calendar dates

    [datetime.date]: a year 1..9999, a month and a day of that month.
    Comparison is that of the triples; the difference of two dates is the
    difference of their proleptic Gregorian ordinals. *)

Record date := { year : Z; month : Z; day : Z }.

Definition is_leap (y : Z) : bool :=
  (y mod 4 =? 0) && (negb (y mod 100 =? 0) || (y mod 400 =? 0)).

Definition DAYS_IN_MONTH : list Z := [31; 28; 31; 30; 31; 30; 31; 31; 30; 31; 30; 31].

Definition days_in_month (y m : Z) : Z :=
  if (m =? 2) && is_leap y then 29
  else nth (Z.to_nat (m - 1)) DAYS_IN_MONTH 0.

Definition days_before_year (y : Z) : Z :=
  let y := y - 1 in y * 365 + y / 4 - y / 100 + y / 400.

Definition days_before_month (y m : Z) : Z :=
  fold_right Z.add 0 (take (Z.to_nat (m - 1)) DAYS_IN_MONTH)
  + (if (m >? 2) && is_leap y then 1 else 0).

Definition toordinal (d : date) : Z :=
  days_before_year (year d) + days_before_month (year d) (month d) + day d.

Definition valid_date (d : date) : Prop :=
  1 <= year d <= 9999 /\ 1 <= month d <= 12
  /\ 1 <= day d <= days_in_month (year d) (month d).

(** [a >= b] and [a < b] on dates. *)
Definition date_ge (a b : date) : bool :=
  (year a >? year b)
  || (year a =? year b)
     && ((month a >? month b) || (month a =? month b) && (day a >=? day b)).

Definition date_lt (a b : date) : bool := negb (date_ge a b).

(** [(a - b).days] *)
Definition days_between (a b : date) : Z := toordinal a - toordinal b.

Definition week_number (today start : date) : Z :=
  let delta_days := days_between today start in
  if delta_days >=? 0 then delta_days / 7 + 1 else 0.

Definition lesson_matches_week (lesson : Lesson) (wk : Z) : bool :=
  if wk <=? 0 then false
  else if negb (bool_decide (wk ∈ weeks lesson)) then false
  else if bool_decide (parity lesson = Some (U "odd")) && (wk mod 2 =? 0) then false
  else if bool_decide (parity lesson = Some (U "even")) && (wk mod 2 =? 1) then false
  else true.

(** ** The add-lesson command *)

Definition msg_min_parts : str :=
  U "Минимум 4 части: <группа> <день> <слот> <Название(недели)> ...".
Definition msg_day : str :=
  U "День должен быть одним из: " ++ join (U ", ") RU_WEEKDAYS.
Definition msg_slot_range : str :=
  U "Слот должен быть 1.." ++ str_of_int (len SLOTS).
Definition msg_slot_number : str := U "Слот должен быть числом 1..4".
Definition msg_brackets : str :=
  U "Не нашёл скобки с неделями. Пример: Алгебра(2-13)".
Definition msg_no_room : str := U "Не указана аудитория.".
Definition msg_no_room_after : str :=
  U "Не указана аудитория после скобок. Пример: ... ) 101 или ... ) н/н 101".

Section AddLesson.
Context `{UnicodeData}.

(** Lines 424-426: the text from the title on.  [slot_tok] is [parts[2]];
    it occurs in [args], so the split has a second piece (lemma
    [slot_split_in_range]). *)
Definition lesson_tail (args slot_tok : str) (slot : Z) : str :=
  let tail := strip (nth 1 (split slot_tok (Some 1%nat) args) []) in
  if startswith (str_of_int slot) tail
  then strip (slice (Some (len (str_of_int slot))) None tail)
  else tail.

(** Lines 438-456: the optional parity and the room after the brackets;
    [inl (parity, room)], or [inr] of the message returned. *)
Definition parity_and_room (after : str) : (option str * str) + str :=
  match after with
  | [] => inr msg_no_room_after
  | _ :: _ =>
    let tokens := split_ws after in
    match tokens with
    | tok :: _ =>
      match detect_parity tok with
      | Some p =>
        match _parse_room_from_tokens tokens 1 with
        | inl room => inl (Some p, room)
        | inr room_err => inr room_err
        end
      | None =>
        match _parse_room_from_tokens tokens 0 with
        | inl room => inl (None, room)
        | inr room_err => inr room_err
        end
      end
    | [] => inr msg_no_room
    end
  end.

(** Lines 407-436: the structural tokens and the three texts cut out of
    the tail: (group, day, slot, title, weeks_raw, after), or the message
    returned.  The guard on [len parts] keeps [parts[0..2]] in range. *)
Definition lesson_head (args : str)
    : (str * str * Z * str * str * str) + str :=
  let parts := split_ws args in
  if len parts <? 4 then inr msg_min_parts
  else
    let group := nth 0 parts [] in
    let day := lower (nth 1 parts []) in
    if negb (str_in day RU_WEEKDAYS) then inr msg_day
    else
      match int (nth 2 parts []) with
      | None => inr msg_slot_number
      | Some slot =>
        if negb (in_SLOTS slot) then inr msg_slot_range
        else
          let tail := lesson_tail args (nth 2 parts []) slot in
          let l := find (U "(") tail in
          let r := find (U ")") tail in
          if (l =? -1) || (r =? -1) || (r <? l) then inr msg_brackets
          else
            let title := strip (slice None (Some l) tail) in
            let weeks_raw := strip (slice (Some (l + 1)) (Some r) tail) in
            let after := strip (slice (Some (r + 1)) None tail) in
            inl (group, day, slot, title, weeks_raw, after)
      end.

(** ((group, day, slot, lesson), None) is [inl], (None, message) is
    [inr]. *)
Definition parse_add_lesson_args (args : str)
    : (str * str * Z * Lesson) + str :=
  match lesson_head args with
  | inr err => inr err
  | inl (group, day, slot, title, weeks_raw, after) =>
    match parity_and_room after with
    | inr room_err => inr room_err
    | inl (parity, room) =>
      let weeks_list := parse_weeks weeks_raw 30 in
      inl (group, day, slot,
           {| title := title;
              room := room;
              weeks_spec :=
                match weeks_raw with [] => U "1-30" | _ => weeks_raw end;
              weeks := weeks_list;
              parity := parity |})
    end
  end.

End AddLesson.

(** ** The store and the delete command

    The handlers read and write the schedule document and send replies.
    The world holds what [load_schedules] decodes from the file (the empty
    document when the file is missing or malformed), every document
    [save_schedules] has written, and the replies sent, latest first. *)

(** A stored entry: the document is untyped JSON, so an entry may be
    [null]. *)
Inductive stored := Null | Stored (l : Lesson).

Abbreviation schedules_doc := (gmap str (gmap str (gmap str stored))).

Record world := {
  schedule_file : schedules_doc;
  saved : list schedules_doc;
  answers : list str
}.

Definition M (A : Type) : Type := world -> A * world.
Definition ret {A} (a : A) : M A := fun w => (a, w).
Definition bind {A B} (m : M A) (k : A -> M B) : M B :=
  fun w => let '(a, w') := m w in k a w'.

Notation "x <- m ;; k" := (bind m (fun x => k))
  (at level 100, m at next level, right associativity).
Notation "m ;;; k" := (bind m (fun _ => k))
  (at level 100, right associativity).

Definition load_schedules : M schedules_doc :=
  fun w => (schedule_file w, w).

Definition save_schedules (d : schedules_doc) : M unit :=
  fun w => (tt, {| schedule_file := d; saved := d :: saved w;
                   answers := answers w |}).

(** [m.answer(text)] *)
Definition answer (text : str) : M unit :=
  fun w => (tt, {| schedule_file := schedule_file w; saved := saved w;
                   answers := text :: answers w |}).

(** [schedules.get(group, {}).get(day, {}).pop(key, None)]: the value
    popped and the document afterwards; the dictionaries reached through
    [get] are those of the document, the defaults are fresh. *)
Definition pop_lesson (schedules : schedules_doc) (group day key : str)
    : option stored * schedules_doc :=
  match schedules !! group with
  | None => (None, schedules)
  | Some g =>
    match g !! day with
    | None => (None, schedules)
    | Some d => (d !! key, <[group := <[day := delete key d]> g]> schedules)
    end
  end.

Definition msg_admin_only : str := U "Только для админа.".
Definition msg_del_format : str := U "Формат: /del_lesson <группа> <день> <слот>".
Definition msg_not_found : str := U "Такой пары не найдено.".
Definition msg_deleted : str := U "🗑️ Пара удалена.".

Section Admin.
Context `{UnicodeData}.
Variable ADMIN_ID : Z.

Definition is_admin (uid : Z) : bool := negb (ADMIN_ID =? 0) && (uid =? ADMIN_ID).

(** [from_user] is [m.from_user.id], [command_args] is [command.args]. *)
Definition del_lesson (from_user : Z) (command_args : option str) : M unit :=
  if negb (is_admin from_user) then answer msg_admin_only
  else
    let args := split_ws (strip (default (U "") command_args)) in
    if len args <? 3 then answer msg_del_format
    else
      let group := nth 0 args [] in
      let day := lower (nth 1 args []) in
      let slot_s := nth 2 args [] in
      if negb (str_in day RU_WEEKDAYS) then answer msg_day
      else
        match int slot_s with
        | None => answer msg_slot_number
        | Some slot =>
          if negb (in_SLOTS slot) then answer msg_slot_number
          else
            schedules <- load_schedules ;;
            let '(popped, schedules') :=
              pop_lesson schedules group day (str_of_int slot) in
            match popped with
            | None | Some Null => answer msg_not_found
            | Some (Stored _) =>
              save_schedules schedules' ;;; answer msg_deleted
            end
        end.

End Admin.

Section Examples.
Context `{UnicodeData}.

Example int_ex :
  int (U "+2") = Some 2 /\ int (U "-2") = Some (-2) /\ int (U "0_2") = Some 2
  /\ int (U "_2") = None /\ int (U "2_") = None /\ int (U "1__0") = None
  /\ int (U " 5 ") = Some 5 /\ int (U "") = None /\ int (U "+ 2") = None.
Proof. repeat split. Qed.

Example parse_weeks_ex1 : parse_weeks (U "2-4,10") 30 = [2; 3; 4; 10].
Proof. vm_compute. reflexivity. Qed.

Example add_lesson_ex :
  parse_add_lesson_args (U "ИВТ вторник 1 Физика(2-4,10) 202")
  = inl (U "ИВТ", U "вторник", 1,
         {| title := U "Физика"; room := U "202"; weeks_spec := U "2-4,10";
            weeks := [2; 3; 4; 10]; parity := None |}).
Proof. vm_compute. reflexivity. Qed.

Example add_lesson_ex2 :
  parse_add_lesson_args (U "ИВТ среда 3 Программирование( ) ч/н д/о")
  = inl (U "ИВТ", U "среда", 3,
         {| title := U "Программирование"; room := U "д/о"; weeks_spec := U "1-30";
            weeks := range 1 31; parity := Some (U "even") |}).
Proof. vm_compute. reflexivity. Qed.

Example parity_ex : detect_parity (U "Н/Н") = Some (U "odd").
Proof. vm_compute. reflexivity. Qed.
End Examples.

Example toordinal_ex :
  toordinal {| year := 2024; month := 9; day := 2 |} = 739131.
Proof. reflexivity. Qed.

(** * Properties *)

(** ** Week calculator *)

Section WeekNumber.

Lemma days_before_year_succ y :
  days_before_year (y + 1)
  = days_before_year y + 365 + (if is_leap y then 1 else 0).
Proof.
  unfold days_before_year, is_leap.
  replace (y + 1 - 1) with y by lia.
  destruct (y mod 4 =? 0) eqn:E4; destruct (y mod 100 =? 0) eqn:E100;
    destruct (y mod 400 =? 0) eqn:E400; simpl;
    rewrite ?Z.eqb_eq, ?Z.eqb_neq in *; Z.div_mod_to_equations; lia.
Qed.

Lemma days_before_year_mono y y' :
  y <= y' -> days_before_year y <= days_before_year y'.
Proof. unfold days_before_year. Z.div_mod_to_equations. lia. Qed.

(** Case analysis on a month number. *)
Ltac months m Hm :=
  assert (m = 1 \/ m = 2 \/ m = 3 \/ m = 4 \/ m = 5 \/ m = 6 \/ m = 7
          \/ m = 8 \/ m = 9 \/ m = 10 \/ m = 11 \/ m = 12) as Hm by lia;
  repeat (destruct Hm as [-> | Hm]); [.. | subst m].

(** Closes a comparison of numerals. *)
Ltac numerals := vm_compute; intuition discriminate.

Lemma days_in_month_pos y m : 1 <= m <= 12 -> 28 <= days_in_month y m <= 31.
Proof.
  intros Hr. months m Hm; unfold days_in_month; destruct (is_leap y);
    numerals.
Qed.

(** The days of a month end before the next month starts. *)
Lemma days_before_month_next y m m' :
  1 <= m -> m < m' -> m' <= 12 ->
  days_before_month y m + days_in_month y m <= days_before_month y m'.
Proof.
  intros H1 H2 H3.
  assert (1 <= m <= 12) as Hr by lia. assert (1 <= m' <= 12) as Hr' by lia.
  months m Hm; months m' Hm'; try lia;
    unfold days_before_month, days_in_month; destruct (is_leap y); numerals.
Qed.

Lemma days_of_year_bound y m :
  1 <= m <= 12 ->
  0 <= days_before_month y m
  /\ days_before_month y m + days_in_month y m
     <= 365 + (if is_leap y then 1 else 0).
Proof.
  intros Hr. months m Hm; unfold days_before_month, days_in_month;
    destruct (is_leap y); numerals.
Qed.

Lemma toordinal_year_bounds d :
  valid_date d ->
  days_before_year (year d) < toordinal d <= days_before_year (year d + 1).
Proof.
  intros (Hy & Hm & Hd). unfold toordinal.
  rewrite days_before_year_succ.
  pose proof (days_of_year_bound (year d) (month d) Hm). lia.
Qed.

(** The ordinal grows with the date: the order of the triples is the
    order of the ordinals. *)
Lemma date_ge_toordinal a b :
  valid_date a -> valid_date b ->
  date_ge a b = true <-> toordinal b <= toordinal a.
Proof.
  intros Ha Hb.
  pose proof (toordinal_year_bounds a Ha) as Ba.
  pose proof (toordinal_year_bounds b Hb) as Bb.
  destruct Ha as (Hya & Hma & Hda), Hb as (Hyb & Hmb & Hdb).
  unfold date_ge. rewrite !Z.gtb_ltb, Z.geb_leb.
  destruct (Z.ltb_spec (year b) (year a)); simpl.
  { split; [intros _ | reflexivity].
    pose proof (days_before_year_mono (year b + 1) (year a)). lia. }
  destruct (Z.eqb_spec (year a) (year b)) as [Ey | Ny]; simpl.
  2: { split; [discriminate |].
       pose proof (days_before_year_mono (year a + 1) (year b)). lia. }
  unfold toordinal. rewrite Ey in *.
  destruct (Z.ltb_spec (month b) (month a)); simpl.
  { split; [intros _ | reflexivity].
    pose proof (days_before_month_next (year b) (month b) (month a)). lia. }
  destruct (Z.eqb_spec (month a) (month b)) as [Em | Nm]; simpl.
  2: { split; [discriminate |].
       pose proof (days_before_month_next (year b) (month a) (month b)). lia. }
  rewrite Em, Z.leb_le. lia.
Qed.

(** C1.  For dates [today >= start] the week number is
    [floor((today - start).days / 7) + 1], and for [today < start] it is 0. *)
Theorem week_number_spec today start :
  valid_date today -> valid_date start ->
  (date_ge today start = true ->
   week_number today start = days_between today start / 7 + 1)
  /\ (date_lt today start = true -> week_number today start = 0).
Proof.
  intros Ht Hs. pose proof (date_ge_toordinal today start Ht Hs) as Hge.
  unfold week_number, date_lt, days_between in *. split.
  - intros Hd. apply Hge in Hd.
    destruct (Z.geb_spec (toordinal today - toordinal start) 0); [reflexivity | lia].
  - intros Hd. apply negb_true_iff in Hd.
    destruct (Z.geb_spec (toordinal today - toordinal start) 0) as [Hp |];
      [| reflexivity].
    assert (date_ge today start = true) by (apply Hge; lia). congruence.
Qed.

Definition sept_2 : date := {| year := 2024; month := 9; day := 2 |}.
Definition sept_16 : date := {| year := 2024; month := 9; day := 16 |}.

Example week_number_ex :
  week_number sept_16 sept_2 = 3 /\ week_number sept_2 sept_16 = 0
  /\ week_number sept_2 sept_2 = 1.
Proof. repeat split. Qed.

Lemma week_number_spec_witness :
  valid_date sept_16 /\ valid_date sept_2 /\ date_ge sept_16 sept_2 = true
  /\ week_number sept_16 sept_2 = days_between sept_16 sept_2 / 7 + 1.
Proof.
  assert (valid_date sept_16) as H16 by numerals.
  assert (valid_date sept_2) as H2 by numerals.
  split; [exact H16 | split; [exact H2 | split; [reflexivity |]]].
  apply (week_number_spec sept_16 sept_2 H16 H2). reflexivity.
Defined.

End WeekNumber.

(** ** Lesson matcher *)

(** C2.  A lesson matches a week exactly when the week is at least 1, is
    one of the lesson's weeks, and agrees with the parity: an odd lesson
    needs an odd week, an even lesson an even week, and no parity asks
    nothing.  Week 0 matches no lesson. *)
Theorem lesson_matches_week_spec lesson wk :
  (lesson_matches_week lesson wk = true <->
     1 <= wk /\ wk ∈ weeks lesson
     /\ (parity lesson = Some (U "odd") -> Z.odd wk = true)
     /\ (parity lesson = Some (U "even") -> Z.even wk = true))
  /\ lesson_matches_week lesson 0 = false.
Proof.
  split; [| reflexivity].
  unfold lesson_matches_week.
  rewrite (Zmod_odd wk), <- Z.negb_odd.
  destruct (Z.leb_spec wk 0) as [Hle | Hgt].
  { split; [discriminate | lia]. }
  destruct (bool_decide_reflect (wk ∈ weeks lesson)) as [Hin | Hout]; simpl.
  2: { split; [discriminate | tauto]. }
  destruct (bool_decide_reflect (parity lesson = Some (U "odd"))) as [Ho | Ho];
    destruct (bool_decide_reflect (parity lesson = Some (U "even"))) as [He | He];
    destruct (Z.odd wk); simpl; split; intros Hx;
    try discriminate; try reflexivity;
    try (repeat split; first [lia | assumption | congruence | done]);
    try (destruct Hx as (_ & _ & Hx1 & Hx2);
         first [specialize (Hx1 Ho); discriminate
               | specialize (Hx2 He); discriminate]).
  all: rewrite Ho in He; vm_compute in He; discriminate.
Qed.

(** The matcher on the lessons of the specification's examples. *)
Definition even_lesson : Lesson :=
  {| title := U "Алгебра"; room := U "101"; weeks_spec := U "2,4,6";
     weeks := [2; 4; 6]; parity := Some (U "even") |}.

Definition odd_lesson : Lesson :=
  {| title := U "Физика"; room := U "202"; weeks_spec := U "1-30";
     weeks := range 1 31; parity := Some (U "odd") |}.

Example lesson_matches_week_examples :
  map (lesson_matches_week even_lesson) [2; 3; 4; 5; 7]
  = [true; false; true; false; false]
  /\ map (lesson_matches_week odd_lesson) [7; 8; 0; 31]
     = [true; false; false; false].
Proof. split; vm_compute; reflexivity. Qed.

(** ** Strings *)

Section StringLemmas.

Lemma span_spec p s :
  s = (span p s).1 ++ (span p s).2
  /\ Forall (fun c => p c = true) (span p s).1
  /\ match (span p s).2 with [] => True | c :: _ => p c = false end.
Proof.
  induction s as [| c s IH]; simpl; [auto |].
  destruct (p c) eqn:E; simpl; [| auto].
  destruct (span p s) as [a b]; simpl in *.
  destruct IH as (-> & Ha & Hb). auto.
Qed.

(** A run of [p] followed by nothing or by a character outside [p] is
    what [span] cuts off. *)
Lemma span_app p a b :
  Forall (fun c => p c = true) a ->
  match b with [] => True | c :: _ => p c = false end ->
  span p (a ++ b) = (a, b).
Proof.
  intros Ha Hb. induction Ha as [| c a Hc Ha IH]; simpl.
  - destruct b as [| c b]; simpl; [reflexivity | now rewrite Hb].
  - now rewrite Hc, IH.
Qed.

Lemma lstrip_with_app p a b :
  Forall (fun c => p c = true) a ->
  match b with [] => True | c :: _ => p c = false end ->
  lstrip_with p (a ++ b) = b.
Proof. intros Ha Hb. unfold lstrip_with. now rewrite span_app. Qed.

Lemma lstrip_with_id p s :
  match s with [] => True | c :: _ => p c = false end ->
  lstrip_with p s = s.
Proof. intros Hs. now apply (lstrip_with_app p [] s). Qed.

Lemma lstrip_with_all p s :
  Forall (fun c => p c = true) s -> lstrip_with p s = [].
Proof.
  intros Hs. rewrite <- (app_nil_r s). now apply lstrip_with_app.
Qed.

Lemma rstrip_with_app p a b :
  Forall (fun c => p c = true) b ->
  match rev a with [] => True | c :: _ => p c = false end ->
  rstrip_with p (a ++ b) = a.
Proof.
  intros Hb Ha. unfold rstrip_with. rewrite rev_app_distr.
  rewrite lstrip_with_app; [apply rev_involutive | | assumption].
  now apply List.Forall_rev.
Qed.

Lemma rstrip_with_id p s :
  match rev s with [] => True | c :: _ => p c = false end ->
  rstrip_with p s = s.
Proof.
  intros Hs. rewrite <- (app_nil_r s) at 1. now apply rstrip_with_app.
Qed.

(** A text with nothing to strip: it neither starts nor ends with [p]. *)
Definition trimmed (p : char -> bool) (s : str) : Prop :=
  match s with [] => True | c :: _ => p c = false end
  /\ match rev s with [] => True | c :: _ => p c = false end.


Lemma strip_with_id p s : trimmed p s -> strip_with p s = s.
Proof.
  intros [Hl Hr]. unfold strip_with.
  rewrite lstrip_with_id by assumption. now apply rstrip_with_id.
Qed.


(** A text without any character of [p] is trimmed. *)
Lemma free_trimmed p s :
  Forall (fun c => p c = false) s -> trimmed p s.
Proof.
  intros Hs. split.
  - destruct Hs; auto.
  - apply List.Forall_rev in Hs. destruct Hs; auto.
Qed.

(** Slices from an index on are [drop]. *)
Lemma slice_from {A} (i : nat) (l : list A) :
  slice (Some (Z.of_nat i)) None l = drop i l.
Proof.
  unfold slice, slice_index, len. simpl.
  destruct (Z.ltb_spec (Z.of_nat i) 0); [lia |].
  destruct (Z.ltb_spec (Z.of_nat (length l)) 0); [lia |].
  rewrite Z.min_id.
  destruct (Z.min_spec (Z.of_nat i) (Z.of_nat (length l))) as [[Hlt ->] | [Hge ->]].
  - rewrite Nat2Z.id. apply take_ge. rewrite length_drop. lia.
  - rewrite Nat2Z.id, !drop_ge by lia. now rewrite take_nil.
Qed.

End StringLemmas.

(** ** Room validator *)

(** A database that knows nothing beyond the basic blocks; the inputs of
    the examples below lie inside them. *)
Definition basic_unicode : UnicodeData :=
  {| unicode_lower := fun s => s; unicode_decimal := fun _ => None |}.

Section RoomProperties.
Context `{UnicodeData}.

(** The shape of an accepted room: one to five decimal digits, or one of
    the two symbolic rooms. *)
Definition room_shape (r : str) : Prop :=
  (1 <= len r <= 5 /\ Forall (fun c => is_Some (decimal c)) r)
  \/ r = U "д/о" \/ r = U "с/зал".

(** A token as whitespace splitting yields it: no whitespace inside. *)
Definition ws_free (tok : str) : Prop :=
  Forall (fun c => is_space c = false) tok.

Lemma forallb_is_decimal s :
  forallb is_decimal s = true <-> Forall (fun c => is_Some (decimal c)) s.
Proof.
  induction s as [| c s IH]; simpl.
  - split; auto.
  - rewrite andb_true_iff, IH, Forall_cons. unfold is_decimal.
    now rewrite bool_decide_eq_true.
Qed.

Lemma ROOM_DIGITS_RE_spec r :
  ROOM_DIGITS_RE r = true
  <-> 1 <= len r <= 5 /\ Forall (fun c => is_Some (decimal c)) r.
Proof.
  unfold ROOM_DIGITS_RE.
  rewrite !andb_true_iff, !Z.leb_le, forallb_is_decimal. tauto.
Qed.

(** Membership in an explicit list. *)
Ltac in_list :=
  first [apply list_elem_of_here | apply list_elem_of_further; in_list].

(** What the validator does on any list of strings: it accepts exactly a
    single remaining token whose normal form has the shape of a room, and
    returns that normal form. *)
Lemma parse_room_outcome tokens start_idx :
  match _parse_room_from_tokens tokens start_idx with
  | inl r =>
    exists tok, drop start_idx tokens = [tok]
      /\ r = _normalize_room_token tok /\ room_shape r
  | inr msg =>
    (~ exists tok, drop start_idx tokens = [tok]
         /\ room_shape (_normalize_room_token tok))
    /\ msg ∈ [msg_room_missing; msg_room_one_word; msg_room_invalid]
  end.
Proof.
  unfold _parse_room_from_tokens. rewrite slice_from. unfold len.
  destruct (Z.geb_spec (Z.of_nat start_idx) (Z.of_nat (length tokens))) as [Hge | Hlt].
  { split; [| in_list]. intros (tok & Hd & _).
    rewrite drop_ge in Hd by lia. discriminate. }
  destruct (Z.eqb_spec (Z.of_nat (length (drop start_idx tokens))) 1) as [H1 | H1];
    simpl.
  2: { split; [| in_list]. intros (tok & Hd & _). rewrite Hd in H1.
       simpl in H1. lia. }
  assert (drop start_idx tokens = [nth start_idx tokens []]) as Hd.
  { destruct (drop start_idx tokens) as [| t [| t' l]] eqn:E; simpl in H1;
      try lia.
    f_equal. rewrite <- (take_drop start_idx tokens) at 1.
    rewrite app_nth2; rewrite length_take; [| lia].
    replace (start_idx - start_idx `min` length tokens)%nat with 0%nat by lia.
    now rewrite E. }
  set (raw := _normalize_room_token (nth start_idx tokens [])).
  assert (forall tok, drop start_idx tokens = [tok]
            -> _normalize_room_token tok = raw) as Huniq.
  { intros tok Ht. rewrite Hd in Ht. now inversion Ht. }
  unfold ROOM_CANON, list_find. simpl.
  destruct (decide _) as [E1 | N1]; simpl.
  { exists (nth start_idx tokens []). rewrite E1. fold raw.
    repeat split; auto. right; left. now rewrite <- E1. }
  destruct (decide _) as [E2 | N2]; simpl.
  { exists (nth start_idx tokens []). rewrite E2. fold raw.
    repeat split; auto. right; right. now rewrite <- E2. }
  destruct (ROOM_DIGITS_RE raw) eqn:Ed.
  { exists (nth start_idx tokens []). fold raw.
    repeat split; auto. left. now apply ROOM_DIGITS_RE_spec. }
  split; [| in_list]. intros (tok & Ht & Hs).
  rewrite (Huniq tok Ht) in Hs. destruct Hs as [Hs | [Hs | Hs]]; try congruence.
  apply ROOM_DIGITS_RE_spec in Hs. congruence.
Qed.

Lemma normalize_ws_free tok :
  ws_free tok -> _normalize_room_token tok = replace (U "\") (U "/") (lower tok).
Proof.
  intros Hf. unfold _normalize_room_token, strip.
  now rewrite strip_with_id by now apply free_trimmed.
Qed.

(** C7.  Given a list of tokens, the room validator accepts exactly when
    one token remains and that token, lowercased and with backslash turned
    into slash, is one to five digits or one of "д/о" and "с/зал"; it then
    returns that normal form.  In every other case it returns a message and
    no room. *)
Theorem room_validator_spec tokens start_idx :
  Forall ws_free tokens ->
  match _parse_room_from_tokens tokens start_idx with
  | inl r =>
    exists tok, drop start_idx tokens = [tok]
      /\ r = replace (U "\") (U "/") (lower tok) /\ room_shape r
  | inr msg =>
    ~ exists tok, drop start_idx tokens = [tok]
        /\ room_shape (replace (U "\") (U "/") (lower tok))
  end.
Proof.
  intros Hf. pose proof (parse_room_outcome tokens start_idx) as Ho.
  assert (forall tok, drop start_idx tokens = [tok] -> ws_free tok) as Hw.
  { intros tok Hd. rewrite Forall_forall in Hf. apply Hf.
    rewrite <- (take_drop start_idx tokens), Hd, elem_of_app, elem_of_cons.
    auto. }
  destruct (_parse_room_from_tokens tokens start_idx) as [r | msg].
  - destruct Ho as (tok & Hd & -> & Hs). exists tok.
    rewrite <- normalize_ws_free by auto. auto.
  - destruct Ho as [Ho _]. intros (tok & Hd & Hs). apply Ho. exists tok.
    rewrite normalize_ws_free by auto. auto.
Qed.

(** The validator on the inputs of the specification's examples. *)
Example room_examples :
  _parse_room_from_tokens [U "101"] 0 = inl (U "101")
  /\ _parse_room_from_tokens [U "Д/О"] 0 = inl (U "д/о")
  /\ _parse_room_from_tokens [U "С\ЗАЛ"] 0 = inl (U "с/зал")
  /\ _parse_room_from_tokens [U "101а"] 0 = inr msg_room_invalid
  /\ _parse_room_from_tokens [U "123456"] 0 = inr msg_room_invalid
  /\ _parse_room_from_tokens [U "101"; U "202"] 0 = inr msg_room_one_word
  /\ _parse_room_from_tokens [U "н/н"] 1 = inr msg_room_missing.
Proof. repeat split. Qed.

End RoomProperties.

Lemma room_validator_spec_witness :
  Forall ws_free [U "Д/О"]
  /\ exists tok, drop 0 [U "Д/О"] = [tok]
       /\ U "д/о" = replace (U "\") (U "/") (lower (H := basic_unicode) tok)
       /\ room_shape (H := basic_unicode) (U "д/о").
Proof.
  assert (Forall ws_free [U "Д/О"]) as Hf.
  { repeat constructor. }
  split; [exact Hf |].
  exact (room_validator_spec (H := basic_unicode) [U "Д/О"] 0 Hf).
Defined.

(** ** The add-lesson command: parity and room *)

Section TailProperties.
Context `{UnicodeData}.

(** A token the validator takes for a room. *)
Definition valid_room (tok : str) : Prop :=
  room_shape (_normalize_room_token tok).

Lemma parse_room_single tok toks start_idx :
  drop start_idx toks = [tok] ->
  (valid_room tok ->
   _parse_room_from_tokens toks start_idx = inl (_normalize_room_token tok))
  /\ (~ valid_room tok ->
      exists msg, _parse_room_from_tokens toks start_idx = inr msg).
Proof.
  intros Hd. pose proof (parse_room_outcome toks start_idx) as Ho.
  destruct (_parse_room_from_tokens toks start_idx) as [r | msg].
  - destruct Ho as (tok' & Hd' & -> & Hs).
    rewrite Hd in Hd'. inversion Hd'; subst tok'. split; [reflexivity |].
    intros Hn. now destruct Hn.
  - split; [| eauto]. intros Hv. destruct Ho as [Ho _]. destruct Ho. eauto.
Qed.

Lemma parse_room_not_single toks start_idx :
  (forall tok, drop start_idx toks <> [tok]) ->
  exists msg, _parse_room_from_tokens toks start_idx = inr msg.
Proof.
  intros Hd. pose proof (parse_room_outcome toks start_idx) as Ho.
  destruct (_parse_room_from_tokens toks start_idx) as [r | msg]; [| eauto].
  destruct Ho as (tok & Hd' & _). now destruct (Hd tok).
Qed.

(** More than one token left: the one-word rule rejects. *)
Lemma parse_room_many t1 t2 toks :
  _parse_room_from_tokens (t1 :: t2 :: toks) 0 = inr msg_room_one_word.
Proof.
  unfold _parse_room_from_tokens. rewrite slice_from. unfold len. simpl drop.
  destruct (Z.geb_spec (Z.of_nat 0) (Z.of_nat (length (t1 :: t2 :: toks))));
    [simpl in *; lia |].
  destruct (Z.eqb_spec (Z.of_nat (length (t1 :: t2 :: toks))) 1);
    [simpl in *; lia | reflexivity].
Qed.

(** The command is accepted with this parity and room. *)
Definition accepts (args : str) (p : option str) (r : str) : Prop :=
  exists group day slot lesson,
    parse_add_lesson_args args = inl (group, day, slot, lesson)
    /\ parity lesson = p /\ room lesson = r.

(** The command is rejected with this message. *)
Definition rejects (args : str) (msg : str) : Prop :=
  parse_add_lesson_args args = inr msg.

(** C6.  The tail after the closing bracket: an empty tail is rejected;
    when its first token is a parity alias, that is the parity and the rest
    must be exactly one token, a valid room; when it is not, the whole tail
    must be exactly one token, a valid room.  A tail of two tokens whose
    first is no parity alias falls under the one-word rule of the room
    validator. *)
Theorem add_lesson_tail_spec args group day slot ttl weeks_raw after :
  lesson_head args = inl (group, day, slot, ttl, weeks_raw, after) ->
  match split_ws after with
  | [] => exists msg, rejects args msg
  | tok :: rest =>
    match detect_parity tok, rest with
    | Some p, [r] =>
      (valid_room r -> accepts args (Some p) (_normalize_room_token r))
      /\ (~ valid_room r -> exists msg, rejects args msg)
    | Some p, _ => exists msg, rejects args msg
    | None, [] =>
      (valid_room tok -> accepts args None (_normalize_room_token tok))
      /\ (~ valid_room tok -> exists msg, rejects args msg)
    | None, _ :: _ => rejects args msg_room_one_word
    end
  end
  /\ (after = [] -> rejects args msg_no_room_after).
Proof.
  intros Hh. unfold accepts, rejects, parse_add_lesson_args. rewrite Hh.
  unfold parity_and_room. split.
  2: { now intros ->. }
  destruct after as [| c after']; [simpl; eauto |].
  destruct (split_ws (c :: after')) as [| tok rest] eqn:Et; [eauto |].
  destruct (detect_parity tok) as [p |] eqn:Ep.
  - destruct rest as [| r [| r' rest']].
    + destruct (parse_room_not_single [tok] 1) as [msg ->]; [| eauto].
      intros t. simpl. discriminate.
    + destruct (parse_room_single r [tok; r] 1 eq_refl) as [Hy Hn]. split.
      * intros Hv. rewrite (Hy Hv). repeat eexists.
      * intros Hv. destruct (Hn Hv) as [msg ->]. eauto.
    + destruct (parse_room_not_single (tok :: r :: r' :: rest') 1) as [msg ->];
        [| eauto].
      intros t. simpl. discriminate.
  - destruct rest as [| r rest'].
    + destruct (parse_room_single tok [tok] 0 eq_refl) as [Hy Hn]. split.
      * intros Hv. rewrite (Hy Hv). repeat eexists.
      * intros Hv. destruct (Hn Hv) as [msg ->]. eauto.
    + now rewrite parse_room_many.
Qed.

End TailProperties.

Lemma add_lesson_tail_spec_witness :
  lesson_head (H := basic_unicode) (U "ИВТ вторник 1 Физика(2-4,10) 101 202")
  = inl (U "ИВТ", U "вторник", 1, U "Физика", U "2-4,10", U "101 202")
  /\ rejects (H := basic_unicode) (U "ИВТ вторник 1 Физика(2-4,10) 101 202")
       msg_room_one_word.
Proof.
  assert (lesson_head (H := basic_unicode)
            (U "ИВТ вторник 1 Физика(2-4,10) 101 202")
          = inl (U "ИВТ", U "вторник", 1, U "Физика", U "2-4,10", U "101 202"))
    as Hh by (vm_compute; reflexivity).
  split; [exact Hh |].
  exact (proj1 (add_lesson_tail_spec (H := basic_unicode) _ _ _ _ _ _ _ Hh)).
Defined.

(** ** The delete command *)

Section DeleteProperties.
Context `{UnicodeData}.
Variable ADMIN_ID : Z.

(** What the document holds at a key. *)
Definition stored_at (doc : schedules_doc) (group day key : str)
    : option stored :=
  match doc !! group with
  | Some g => match g !! day with Some d => d !! key | None => None end
  | None => None
  end.

(** No lesson is stored: the key is absent, or holds [null]. *)
Definition no_lesson (o : option stored) : Prop := o = None \/ o = Some Null.

Lemma pop_lesson_value doc group day key :
  (pop_lesson doc group day key).1 = stored_at doc group day key.
Proof.
  unfold pop_lesson, stored_at.
  destruct (doc !! group) as [g |]; simpl; [| reflexivity].
  destruct (g !! day) as [d |]; reflexivity.
Qed.

(** C8.  A delete request by the administrator, with a valid day and slot,
    whose key holds no stored lesson: the reply is "not found", nothing is
    saved and the document is as it was. *)
Theorem del_lesson_not_found from_user command_args w group day slot_s rest slot :
  is_admin ADMIN_ID from_user = true ->
  split_ws (strip (default (U "") command_args))
  = group :: day :: slot_s :: rest ->
  str_in (lower day) RU_WEEKDAYS = true ->
  int slot_s = Some slot ->
  in_SLOTS slot = true ->
  no_lesson (stored_at (schedule_file w) group (lower day) (str_of_int slot)) ->
  del_lesson ADMIN_ID from_user command_args w
  = (tt, {| schedule_file := schedule_file w;
            saved := saved w;
            answers := msg_not_found :: answers w |}).
Proof.
  intros Ha Hs Hd Hi Hslot Hno. unfold del_lesson.
  rewrite Ha, Hs.
  replace (len (group :: day :: slot_s :: rest) <? 3) with false
    by (symmetry; apply Z.ltb_ge; unfold len; simpl; lia).
  cbn [nth negb]. rewrite Hd, Hi, Hslot. cbn [negb].
  unfold bind, load_schedules.
  pose proof (pop_lesson_value (schedule_file w) group (lower day)
                (str_of_int slot)) as Hp.
  destruct (pop_lesson (schedule_file w) group (lower day) (str_of_int slot))
    as [popped doc']. simpl in Hp. subst popped.
  destruct Hno as [-> | ->]; reflexivity.
Qed.

(** Whatever the request, the document is written only when a lesson was
    stored at the key: otherwise nothing is saved. *)
Lemma del_lesson_saves from_user command_args w :
  let w' := (del_lesson ADMIN_ID from_user command_args w).2 in
  (saved w' = saved w /\ schedule_file w' = schedule_file w)
  \/ exists group day key l,
       stored_at (schedule_file w) group day key = Some (Stored l)
       /\ saved w' = schedule_file w' :: saved w
       /\ stored_at (schedule_file w') group day key = None.
Proof.
  unfold del_lesson.
  destruct (negb (is_admin ADMIN_ID from_user)); [left; auto |].
  destruct (len _ <? 3); [left; auto |].
  destruct (negb (str_in _ RU_WEEKDAYS)); [left; auto |].
  destruct (int _) as [slot |]; [| left; auto].
  destruct (negb (in_SLOTS slot)); [left; auto |].
  unfold bind, load_schedules.
  set (args := split_ws _).
  set (group := nth 0 args []). set (day := lower (nth 1 args [])).
  set (key := str_of_int slot).
  pose proof (pop_lesson_value (schedule_file w) group day key) as Hp.
  unfold pop_lesson, stored_at in *.
  destruct (schedule_file w !! group) as [g |] eqn:Eg; simpl in *; [| left; auto].
  destruct (g !! day) as [d |] eqn:Ed; simpl in *; [| left; auto].
  destruct (d !! key) as [[| l] |] eqn:Ek; simpl; [left; auto | | left; auto].
  right. exists group, day, key, l. repeat split.
  - now rewrite Eg, Ed.
  - rewrite lookup_insert_eq, lookup_insert_eq. apply lookup_delete_eq.
Qed.

End DeleteProperties.

Definition monday_doc : schedules_doc :=
  {[ U "ИВТ" := {[ U "понедельник" := {[ U "2" := Null ]} ]} ]}.

Definition monday_world : world :=
  {| schedule_file := monday_doc; saved := []; answers := [] |}.

Lemma del_lesson_not_found_witness :
  del_lesson (H := basic_unicode) 7 7 (Some (U " ИВТ Понедельник 2 ")) monday_world
  = (tt, {| schedule_file := monday_doc; saved := [];
            answers := [msg_not_found] |})
  /\ del_lesson (H := basic_unicode) 7 7 (Some (U "ИВТ вторник 02")) monday_world
     = (tt, {| schedule_file := monday_doc; saved := [];
               answers := [msg_not_found] |}).
Proof.
  split.
  - apply (del_lesson_not_found (H := basic_unicode) 7 7
             (Some (U " ИВТ Понедельник 2 ")) monday_world
             (U "ИВТ") (U "Понедельник") (U "2") [] 2);
      try reflexivity.
    right. vm_compute. reflexivity.
  - apply (del_lesson_not_found (H := basic_unicode) 7 7
             (Some (U "ИВТ вторник 02")) monday_world
             (U "ИВТ") (U "вторник") (U "02") [] 2);
      try reflexivity.
    left. vm_compute. reflexivity.
Defined.

(** ** The add-lesson command: the split on the slot token *)

Section SlotSplit.

(** A token of [split_ws] is a non-empty piece of the text. *)
Lemma split_ws_go_infix cur s tok :
  tok ∈ split_ws_go cur s ->
  tok <> [] /\ exists a b, rev cur ++ s = a ++ tok ++ b.
Proof.
  revert cur. induction s as [| c s IH]; intros cur Hin.
  - simpl in Hin. destruct cur as [| x cur]; [now apply elem_of_nil in Hin |].
    apply list_elem_of_singleton in Hin. subst tok. split.
    + intros Hr. apply (f_equal (@length _)) in Hr.
      rewrite length_rev in Hr. discriminate.
    + exists [], []. now rewrite !app_nil_r.
  - simpl in Hin. destruct (is_space c).
    + assert (tok ∈ split_ws_go [] s ->
              tok <> [] /\ exists a b, rev cur ++ c :: s = a ++ tok ++ b) as Hrec.
      { intros Hs. destruct (IH [] Hs) as (Hn & a & b & Hab). split; [exact Hn |].
        simpl in Hab. exists (rev cur ++ c :: a), b.
        rewrite Hab, <- app_assoc. reflexivity. }
      destruct cur as [| x cur]; [now apply Hrec |].
      apply elem_of_cons in Hin as [-> | Hin]; [| now apply Hrec]. split.
      * intros Hr. apply (f_equal (@length _)) in Hr.
        rewrite length_rev in Hr. discriminate.
      * exists [], (c :: s). reflexivity.
    + destruct (IH (c :: cur) Hin) as (Hn & a & b & Hab). split; [exact Hn |].
      exists a, b. rewrite <- Hab. simpl. now rewrite <- app_assoc.
Qed.

Lemma startswith_app p r : startswith p (p ++ r) = true.
Proof.
  induction p as [| x p IH]; simpl; [reflexivity |].
  now rewrite N.eqb_refl, IH.
Qed.

(** With no split left, one piece comes out. *)
Lemma split_go_spent sep k cur s :
  length (split_go sep k (Some 0%nat) cur s) = 1%nat.
Proof.
  revert k cur. induction s as [| c s IH]; intros k cur; simpl;
    [reflexivity |].
  destruct k; apply IH.
Qed.

(** A separator that occurs in the text cuts it in two. *)
Lemma split_once_found sep a b cur :
  sep <> [] ->
  length (split_go sep 0 (Some 1%nat) cur (a ++ sep ++ b)) = 2%nat.
Proof.
  intros Hn. revert cur. induction a as [| c a IH]; intros cur.
  - destruct sep as [| x sep]; [congruence |].
    change ([] ++ (x :: sep) ++ b) with (x :: sep ++ b).
    cbn [split_go]. change (x :: sep ++ b) with ((x :: sep) ++ b).
    rewrite startswith_app. cbn [andb fmap option_fmap option_map length].
    now rewrite split_go_spent.
  - change ((c :: a) ++ sep ++ b) with (c :: a ++ sep ++ b).
    cbn [split_go]. destruct (true && startswith sep (c :: a ++ sep ++ b)).
    + cbn [length fmap option_fmap option_map]. now rewrite split_go_spent.
    + apply IH.
Qed.

(** The split of [lesson_tail] has its second piece: [parts[2]] occurs
    in the command. *)
Lemma slot_split_in_range args :
  (2 < length (split_ws args))%nat ->
  length (split (nth 2 (split_ws args) []) (Some 1%nat) args) = 2%nat.
Proof.
  intros Hl.
  assert (nth 2 (split_ws args) [] ∈ split_ws args) as Hin.
  { apply list_elem_of_In, nth_In. exact Hl. }
  apply split_ws_go_infix in Hin as (Hn & a & b & Hab).
  simpl in Hab. rewrite Hab at 2. now apply split_once_found.
Qed.

End SlotSplit.

(** ** The add-lesson command: title and weeks text *)

Section FindLemmas.

(** The first occurrence of a character, as [find] reports it. *)
Lemma find_go_char c i s :
  (find_go [c] i s = (-1) /\ c ∉ s)
  \/ exists a b, s = a ++ c :: b /\ (c ∉ a) /\ find_go [c] i s = i + len a.
Proof.
  revert i. induction s as [| x s IH]; intros i; simpl.
  - left. split; [reflexivity | apply not_elem_of_nil].
  - rewrite andb_true_r. destruct (N.eqb_spec c x) as [<- | Hne].
    + right. exists [], s. unfold len. simpl.
      repeat split; [apply not_elem_of_nil | lia].
    + destruct (IH (i + 1)) as [[Hf Hn] | (a & b & -> & Hn & Hf)].
      * left. split; [exact Hf |]. rewrite not_elem_of_cons. auto.
      * right. exists (x :: a), b. rewrite Hf. unfold len. simpl.
        repeat split; [rewrite not_elem_of_cons; auto | lia].
Qed.

Lemma find_char c s :
  (find [c] s = (-1) /\ c ∉ s)
  \/ exists a b, s = a ++ c :: b /\ (c ∉ a) /\ find [c] s = len a.
Proof. apply (find_go_char c 0 s). Qed.

(** Slices between bounds inside the text. *)
Lemma slice_between {A} (lo hi : nat) (l : list A) :
  (lo <= hi <= length l)%nat ->
  slice (Some (Z.of_nat lo)) (Some (Z.of_nat hi)) l
  = take (hi - lo) (drop lo l).
Proof.
  intros Hb. unfold slice, slice_index, len. simpl.
  destruct (Z.ltb_spec (Z.of_nat lo) 0); [lia |].
  destruct (Z.ltb_spec (Z.of_nat hi) 0); [lia |].
  rewrite !Z.min_l by lia. rewrite Nat2Z.id. f_equal. lia.
Qed.

Lemma slice_to {A} (hi : nat) (l : list A) :
  (hi <= length l)%nat -> slice None (Some (Z.of_nat hi)) l = take hi l.
Proof.
  intros Hb. unfold slice, slice_index, len. simpl.
  destruct (Z.ltb_spec (Z.of_nat hi) 0); [lia |].
  rewrite Z.min_l, Z.min_l by lia. simpl. f_equal. lia.
Qed.

End FindLemmas.

Section TitleProperties.
Context `{UnicodeData}.

(** Arithmetic on the lengths of appended lists. *)
Ltac lens := rewrite ?length_app; cbn [length]; rewrite ?length_app;
             cbn [length]; lia.

(** Once the brackets are found, the tail is cut at the first opening
    bracket and the first closing one, which comes later; the title, the
    weeks text and the text after are the three pieces, trimmed. *)
Lemma lesson_head_brackets args group day slot ttl weeks_raw after :
  lesson_head args = inl (group, day, slot, ttl, weeks_raw, after) ->
  exists before inside rest,
    lesson_tail args (nth 2 (split_ws args) []) slot
    = before ++ U "(" ++ inside ++ U ")" ++ rest
    /\ (ch "(" ∉ before) /\ (ch ")" ∉ before) /\ (ch ")" ∉ inside)
    /\ ttl = strip before /\ weeks_raw = strip inside /\ after = strip rest.
Proof.
  unfold lesson_head. intros Hh.
  destruct (len (split_ws args) <? 4); [discriminate |].
  destruct (negb (str_in _ RU_WEEKDAYS)); [discriminate |].
  destruct (int (nth 2 (split_ws args) [])) as [slot' |]; [| discriminate].
  destruct (negb (in_SLOTS slot')); [discriminate |].
  set (tail := lesson_tail args (nth 2 (split_ws args) []) slot') in *.
  destruct (find_char (ch "(") tail) as [[El _] | (a & b & Et & Ha & El)].
  { rewrite El in Hh. discriminate. }
  destruct (find_char (ch ")") tail) as [[Er _] | (a' & b' & Et' & Ha' & Er)].
  { rewrite Er, orb_true_r in Hh. discriminate. }
  rewrite El, Er in Hh.
  destruct (Z.eqb_spec (len a) (-1)) as [Hx | _]; [unfold len in Hx; lia |].
  destruct (Z.eqb_spec (len a') (-1)) as [Hx | _]; [unfold len in Hx; lia |].
  destruct (Z.ltb_spec (len a') (len a)) as [Hx | Hle]; [discriminate |].
  simpl in Hh. unfold len in Hle.
  (* the closing bracket lies after the opening one *)
  assert (exists m, a' = a ++ ch "(" :: m /\ b = m ++ ch ")" :: b')
    as (m & -> & ->).
  { rewrite Et in Et'. clear - Et' Ha Ha' Hle.
    revert a' Et' Ha' Hle. induction a as [| x a IH]; intros a' Et' Ha' Hle.
    - destruct a' as [| y a']; simpl in *; [discriminate |].
      inversion Et'; subst. eauto.
    - destruct a' as [| y a']; simpl in *; [lia |].
      inversion Et'; subst. rewrite not_elem_of_cons in Ha, Ha'.
      destruct (IH (proj2 Ha) a') as (m & -> & ->); [auto | tauto | lia |].
      eauto. }
  exists a, m, b'.
  rewrite not_elem_of_app, not_elem_of_cons in Ha'.
  inversion Hh; subst. fold tail. rewrite Et.
  repeat split; try tauto.
  - f_equal. unfold len. rewrite slice_to by lens.
    now rewrite take_app_length.
  - f_equal. unfold len.
    replace (Z.of_nat (length a) + 1) with (Z.of_nat (S (length a))) by lia.
    rewrite slice_between by lens.
    replace (S (length a)) with (length (a ++ [40%N])) by lens.
    change (a ++ 40%N :: m ++ 41%N :: b') with (a ++ [40%N] ++ m ++ 41%N :: b').
    rewrite (app_assoc a), drop_app_length.
    replace (length (a ++ 40%N :: m) - length (a ++ [40%N]))%nat
      with (length m) by lens.
    now rewrite take_app_length.
  - f_equal. unfold len.
    replace (Z.of_nat (length (a ++ 40%N :: m)) + 1)
      with (Z.of_nat (length ((a ++ 40%N :: m) ++ [41%N]))) by lens.
    rewrite slice_from.
    change (a ++ 40%N :: m ++ 41%N :: b')
      with (a ++ (40%N :: m) ++ [41%N] ++ b').
    rewrite !app_assoc. now rewrite drop_app_length.
Qed.

End TitleProperties.

Section WeeksSpecProperties.
Context `{UnicodeData}.


(** A command with empty brackets, and one with blanks inside them. *)
Example add_lesson_empty_brackets :
  parse_add_lesson_args (U "ИВТ вторник 1 Физика() 202")
  = inl (U "ИВТ", U "вторник", 1,
         {| title := U "Физика"; room := U "202"; weeks_spec := U "1-30";
            weeks := range 1 31; parity := None |}).
Proof. vm_compute. reflexivity. Qed.


(** The text after the first [n] whitespace-separated tokens, in the
    words of the specification. *)
Fixpoint after_tokens (n : nat) (s : str) : str :=
  match n with
  | O => s
  | S n' =>
    after_tokens n'
      (snd (span (fun c => negb (is_space c)) (lstrip_with is_space s)))
  end.

(** The title in the words of the specification: what precedes the first
    opening bracket of the text after the three structural tokens,
    trimmed. *)
Definition title_by_spec (args : str) : str :=
  let rest := after_tokens 3 args in
  strip (slice None (Some (find (U "(") rest)) rest).

(** C3.  The first example of the docstring: the group holds the slot
    digit, the tail is cut inside the group, and the title comes out with
    the end of the group, the day and the slot in front of it. *)
Theorem title_when_group_holds_slot_digit :
  parse_add_lesson_args (U "ИВТ-21 понедельник 2 Алгебра(2-13) н/н 101")
  = inl (U "ИВТ-21", U "понедельник", 2,
         {| title := U "1 понедельник 2 Алгебра"; room := U "101";
            weeks_spec := U "2-13";
            weeks := [2; 3; 4; 5; 6; 7; 8; 9; 10; 11; 12; 13];
            parity := Some (U "odd") |})
  /\ title_by_spec (U "ИВТ-21 понедельник 2 Алгебра(2-13) н/н 101")
     = U "Алгебра".
Proof. split; vm_compute; reflexivity. Qed.

(** Without the digit in the group the two agree. *)
Example title_plain_group :
  parse_add_lesson_args (U "ИВТ понедельник 2 Алгебра(2-13) н/н 101")
  = inl (U "ИВТ", U "понедельник", 2,
         {| title := U "Алгебра"; room := U "101"; weeks_spec := U "2-13";
            weeks := [2; 3; 4; 5; 6; 7; 8; 9; 10; 11; 12; 13];
            parity := Some (U "odd") |})
  /\ title_by_spec (U "ИВТ понедельник 2 Алгебра(2-13) н/н 101")
     = U "Алгебра".
Proof. split; vm_compute; reflexivity. Qed.

(** A title that starts with the slot digit loses it. *)
Example title_starting_with_slot_digit :
  parse_add_lesson_args (U "ИВТ среда 3 3D-графика(1-5) 101")
  = inl (U "ИВТ", U "среда", 3,
         {| title := U "D-графика"; room := U "101"; weeks_spec := U "1-5";
            weeks := [1; 2; 3; 4; 5]; parity := None |})
  /\ title_by_spec (U "ИВТ среда 3 3D-графика(1-5) 101") = U "3D-графика".
Proof. split; vm_compute; reflexivity. Qed.

End WeeksSpecProperties.



(** ** Recurrence parser *)

Section ParseWeeksProperties.
Context `{UnicodeData}.

(** The weeks one comma-separated part stands for, before the horizon is
    applied: a range, a single number, or nothing when the part matches
    neither pattern. *)
Definition token_weeks (part : str) : list Z :=
  match range_re (strip part) with
  | Some (g1, g2) =>
    let a := int_digits g1 in
    let b := int_digits g2 in
    range (Z.min a b) (Z.max a b + 1)
  | None =>
    match num_re (strip part) with
    | Some g => [int_digits g]
    | None => []
    end
  end.

(** The set built by the loop of [parse_weeks]. *)
Definition weeks_set (spec : str) (max_week : Z) : gset Z :=
  fold_left (parse_weeks_part max_week) (split (U ",") None spec) ∅.

Lemma elem_of_add_week max_week weeks w v :
  v ∈ add_week max_week weeks w
  <-> v ∈ weeks \/ (v = w /\ 1 <= w <= max_week).
Proof.
  unfold add_week.
  destruct (Z.leb_spec 1 w); destruct (Z.leb_spec w max_week); simpl.
  - rewrite elem_of_union, elem_of_singleton. split.
    + intros [-> | ?]; auto.
    + intros [? | [-> ?]]; auto.
  - split; [auto | intros [? | [? ?]]; [auto | lia]].
  - split; [auto | intros [? | [? ?]]; [auto | lia]].
  - split; [auto | intros [? | [? ?]]; [auto | lia]].
Qed.

Lemma elem_of_fold_add_week max_week l weeks v :
  v ∈ fold_left (add_week max_week) l weeks
  <-> v ∈ weeks \/ (v ∈ l /\ 1 <= v <= max_week).
Proof.
  revert weeks. induction l as [| w l IH]; intros weeks; simpl.
  - rewrite elem_of_nil. tauto.
  - rewrite IH, elem_of_add_week, elem_of_cons. split.
    + intros [[? | [-> ?]] | [? ?]]; auto.
    + intros [? | [[-> | ?] ?]]; auto.
Qed.


Lemma elem_of_parse_weeks_part max_week weeks part v :
  v ∈ parse_weeks_part max_week weeks part
  <-> v ∈ weeks \/ (v ∈ token_weeks part /\ 1 <= v <= max_week).
Proof.
  unfold parse_weeks_part, token_weeks.
  destruct (strip part) as [| c s] eqn:Es.
  { simpl. rewrite elem_of_nil. tauto. }
  destruct (range_re (c :: s)) as [[g1 g2] |].
  - assert ((if int_digits g1 >? int_digits g2
             then (int_digits g2, int_digits g1)
             else (int_digits g1, int_digits g2))
            = (Z.min (int_digits g1) (int_digits g2),
               Z.max (int_digits g1) (int_digits g2))) as ->.
    { destruct (Z.gtb_spec (int_digits g1) (int_digits g2));
        f_equal; lia. }
    apply elem_of_fold_add_week.
  - destruct (num_re (c :: s)) as [g |].
    + rewrite elem_of_add_week, elem_of_cons, elem_of_nil. split.
      * intros [? | [-> ?]]; auto.
      * intros [? | [[-> | []] ?]]; auto.
    + rewrite elem_of_nil. tauto.
Qed.

Lemma elem_of_fold_parts max_week parts weeks v :
  v ∈ fold_left (parse_weeks_part max_week) parts weeks
  <-> v ∈ weeks
      \/ exists part, part ∈ parts
           /\ v ∈ token_weeks part /\ 1 <= v <= max_week.
Proof.
  revert weeks. induction parts as [| p parts IH]; intros weeks; simpl.
  - split; [auto | intros [? | (part & Hp & _)]; [auto |]].
    now apply elem_of_nil in Hp.
  - rewrite IH, elem_of_parse_weeks_part. split.
    + intros [[? | ?] | (part & Hp & ?)]; auto.
      * right. exists p. split; [apply list_elem_of_here | auto].
      * right. exists part. split; [now apply list_elem_of_further | auto].
    + intros [? | (part & Hp & ?)]; auto.
      apply elem_of_cons in Hp as [-> | Hp]; eauto.
Qed.

(** What the loop collects: the weeks of the parts that lie in the
    horizon. *)
Lemma elem_of_weeks_set spec max_week v :
  v ∈ weeks_set spec max_week
  <-> exists part, part ∈ split (U ",") None spec
        /\ v ∈ token_weeks part /\ 1 <= v <= max_week.
Proof.
  unfold weeks_set. rewrite elem_of_fold_parts. split; [| auto].
  intros [Hv | ?]; [| auto]. now apply not_elem_of_empty in Hv.
Qed.

(** The result of [parse_weeks] from the set: the empty text leaves the
    set empty as well. *)
Lemma parse_weeks_unfold spec max_week :
  parse_weeks spec max_week
  = if decide (weeks_set spec max_week = ∅) then range 1 (max_week + 1)
    else merge_sort Z.le (elements (weeks_set spec max_week)).
Proof.
  unfold parse_weeks. destruct spec as [| c s]; reflexivity.
Qed.

Lemma elem_of_range a b v : v ∈ range a b <-> a <= v < b.
Proof. unfold range. rewrite elem_of_seqZ. lia. Qed.

End ParseWeeksProperties.

Section HorizonProperties.
Context `{UnicodeData}.

(** Every week [parse_weeks] returns lies in the horizon. *)
Lemma parse_weeks_bounds spec max_week w :
  w ∈ parse_weeks spec max_week -> 1 <= w <= max_week.
Proof.
  rewrite parse_weeks_unfold.
  destruct (decide (weeks_set spec max_week = ∅)) as [_ | _].
  - rewrite elem_of_range. lia.
  - rewrite merge_sort_Permutation, elem_of_elements, elem_of_weeks_set.
    intros (part & _ & _ & Hb). exact Hb.
Qed.

(** The weeks of a lesson made by the add command come from [parse_weeks]
    with the horizon 30. *)
Lemma add_lesson_weeks args group day slot lesson :
  parse_add_lesson_args args = inl (group, day, slot, lesson) ->
  exists spec, weeks lesson = parse_weeks spec 30.
Proof.
  unfold parse_add_lesson_args. intros Hp.
  destruct (lesson_head args) as [[[[[[g d] s] t] w] after] | err];
    [| discriminate].
  destruct (parity_and_room after) as [[p r] | err]; [| discriminate].
  inversion Hp; subst. simpl. eauto.
Qed.

(** A lesson whose weeks lie in 1..30 matches no week past 30. *)
Lemma weeks_in_horizon_no_match lesson wk :
  (forall w, w ∈ weeks lesson -> 1 <= w <= 30) ->
  30 < wk -> lesson_matches_week lesson wk = false.
Proof.
  intros Hb Hwk. unfold lesson_matches_week.
  destruct (Z.leb_spec wk 0); [reflexivity |].
  destruct (bool_decide_reflect (wk ∈ weeks lesson)) as [Hin | _];
    [| reflexivity].
  apply Hb in Hin. lia.
Qed.

(** C10.  A lesson whose weeks come from [parse_weeks] with the horizon 30
    has all its weeks in 1..30, and matches no week past 30. *)
Theorem no_lesson_past_horizon lesson spec :
  weeks lesson = parse_weeks spec 30 ->
  (forall w, w ∈ weeks lesson -> 1 <= w <= 30)
  /\ (forall wk, 30 < wk -> lesson_matches_week lesson wk = false).
Proof.
  intros Hw.
  assert (forall w, w ∈ weeks lesson -> 1 <= w <= 30) as Hb.
  { intros w Hin. rewrite Hw in Hin. now apply parse_weeks_bounds in Hin. }
  split; [exact Hb |].
  intros wk Hwk. now apply weeks_in_horizon_no_match.
Qed.

(** The same for every lesson the add command makes, even one with empty
    brackets. *)
Corollary added_lesson_past_horizon args group day slot lesson wk :
  parse_add_lesson_args args = inl (group, day, slot, lesson) ->
  30 < wk -> lesson_matches_week lesson wk = false.
Proof.
  intros Hp Hwk. destruct (add_lesson_weeks _ _ _ _ _ Hp) as [spec Hs].
  apply weeks_in_horizon_no_match; [| assumption].
  intros w Hin. rewrite Hs in Hin. now apply parse_weeks_bounds in Hin.
Qed.

(** *** The fall-back to the whole horizon *)







Example parse_weeks_fallback_examples :
  parse_weeks (U "") 30 = range 1 31
  /\ parse_weeks (U "   ") 30 = range 1 31
  /\ parse_weeks (U "abc") 30 = range 1 31
  /\ parse_weeks (U "0, 31-40 ,x") 30 = range 1 31
  /\ range 1 31 = [1; 2; 3; 4; 5; 6; 7; 8; 9; 10; 11; 12; 13; 14; 15; 16; 17;
                   18; 19; 20; 21; 22; 23; 24; 25; 26; 27; 28; 29; 30].
Proof. repeat split; vm_compute; reflexivity. Qed.

End HorizonProperties.

Lemma no_lesson_past_horizon_witness :
  lesson_matches_week
    {| title := U "Физика"; room := U "202"; weeks_spec := U "1-30";
       weeks := range 1 31; parity := None |} 31 = false.
Proof.
  apply (no_lesson_past_horizon (H := basic_unicode)
           {| title := U "Физика"; room := U "202"; weeks_spec := U "1-30";
              weeks := range 1 31; parity := None |} (U ""));
    [vm_compute; reflexivity | lia].
Defined.


(** *** Well-formed week texts *)

Section WeekTexts.
Context `{UnicodeData}.

(** Turns a boolean test on code points into arithmetic. *)
Ltac code_points H :=
  unfold is_space in H;
  repeat rewrite ?orb_true_iff, ?andb_true_iff, ?orb_false_iff,
    ?andb_false_iff, ?N.leb_le, ?N.leb_gt, ?N.eqb_eq, ?N.eqb_neq,
    ?N.ltb_lt, ?N.ltb_ge in H.

Lemma decimal_low c :
  is_Some (decimal c) -> (c < 1632)%N -> (48 <= c <= 57)%N.
Proof.
  unfold decimal. intros Hd Hc.
  destruct (N.ltb_spec c 1632); [| lia].
  destruct ((48 <=? c)%N && (c <=? 57)%N) eqn:E.
  - code_points E. lia.
  - now destruct Hd.
Qed.

Lemma decimal_not_space c : is_Some (decimal c) -> is_space c = false.
Proof.
  intros Hd. destruct (is_space c) eqn:Es; [| reflexivity].
  destruct (N.ltb_spec c 1632) as [Hc | Hc].
  - apply decimal_low in Hd; [| assumption]. code_points Es. lia.
  - unfold decimal in Hd. destruct (N.ltb_spec c 1632); [lia |].
    rewrite Es in Hd. now destruct Hd.
Qed.

Lemma is_decimal_true c : is_decimal c = true <-> is_Some (decimal c).
Proof. unfold is_decimal. apply bool_decide_eq_true. Qed.

Lemma space_not_decimal c : is_space c = true -> is_decimal c = false.
Proof.
  intros Hs. destruct (is_decimal c) eqn:Ed; [| reflexivity].
  apply is_decimal_true, decimal_not_space in Ed. congruence.
Qed.



(** A run of blanks, and a run of digits with at least one digit. *)
Definition blank (s : str) : Prop := Forall (fun c => is_space c = true) s.
Definition digits (s : str) : Prop :=
  s <> [] /\ Forall (fun c => is_Some (decimal c)) s.

Lemma digits_decimal ds :
  digits ds -> Forall (fun c => is_decimal c = true) ds.
Proof.
  intros [_ Hd]. eapply Forall_impl; [exact Hd |].
  intros c Hc. now apply is_decimal_true.
Qed.


(** [int] of a group of [\d+] is the value of its digits: the calls of
    [int] in [parse_weeks] cannot fail. *)
Lemma int_body_digits a ds :
  Forall (fun c => is_Some (decimal c)) ds ->
  int_body (Some a) false ds
  = Some (fold_left (fun acc c => 10 * acc + default 0 (decimal c)) ds a).
Proof.
  intros Hd. revert a. induction Hd as [| c ds Hc Hd IH]; intros a; simpl;
    [reflexivity |].
  destruct (N.eqb_spec c (ch "_")) as [-> | _].
  - apply decimal_low in Hc; lia.
  - destruct Hc as [d Hc]. rewrite Hc. simpl. apply IH.
Qed.

Lemma int_of_digits ds : digits ds -> int ds = Some (int_digits ds).
Proof.
  intros Hd. pose proof Hd as [Hn Hf]. unfold int.
  rewrite strip_with_id.
  2: { apply free_trimmed. eapply Forall_impl; [exact Hf |].
       intros c Hc. unfold int_space.
       now rewrite (decimal_not_space c Hc). }
  destruct ds as [| c ds]; [congruence |]. inversion Hf as [| ? ? Hc Hf']; subst.
  destruct (N.eqb_spec c (ch "-")) as [-> | _]; [apply decimal_low in Hc; lia |].
  destruct (N.eqb_spec c (ch "+")) as [-> | _]; [apply decimal_low in Hc; lia |].
  unfold int_digits. simpl.
  destruct (N.eqb_spec c (ch "_")) as [-> | _]; [apply decimal_low in Hc; lia |].
  destruct Hc as [d Hc]. rewrite Hc. simpl. now apply int_body_digits.
Qed.

Lemma span_digits s :
  (span is_decimal s).1 <> [] -> digits (span is_decimal s).1.
Proof.
  intros Hn. split; [exact Hn |].
  destruct (span_spec is_decimal s) as (_ & Hf & _).
  eapply Forall_impl; [exact Hf |]. intros c Hc. now apply is_decimal_true.
Qed.

Lemma range_re_groups s g1 g2 :
  range_re s = Some (g1, g2)
  -> int g1 = Some (int_digits g1) /\ int g2 = Some (int_digits g2).
Proof.
  unfold range_re.
  pose proof (span_digits (lstrip_with is_space s)) as H1.
  destruct (span is_decimal (lstrip_with is_space s)) as [a s1].
  destruct a as [| c a]; [discriminate |].
  destruct (lstrip_with is_space s1) as [| x s2]; [discriminate |].
  destruct (x =? ch "-")%N; [| discriminate].
  pose proof (span_digits (lstrip_with is_space s2)) as H2.
  destruct (span is_decimal (lstrip_with is_space s2)) as [b s3].
  destruct b as [| c' b]; [discriminate |].
  destruct (lstrip_with is_space s3); [| discriminate].
  intros Hs. inversion Hs; subst.
  split; apply int_of_digits; [apply H1 | apply H2]; discriminate.
Qed.

Lemma num_re_group s g : num_re s = Some g -> int g = Some (int_digits g).
Proof.
  unfold num_re.
  pose proof (span_digits (lstrip_with is_space s)) as H1.
  destruct (span is_decimal (lstrip_with is_space s)) as [a s1].
  destruct a as [| c a]; [discriminate |].
  destruct (lstrip_with is_space s1); [| discriminate].
  intros Hs. inversion Hs; subst. apply int_of_digits, H1. discriminate.
Qed.

(** What follows a run: nothing, or a character outside the class. *)
Definition stops (p : char -> bool) (s : str) : Prop :=
  match s with [] => True | c :: _ => p c = false end.

Lemma stops_digits_space ds s : digits ds -> stops is_space (ds ++ s).
Proof.
  intros [Hn Hd]. destruct ds as [| c ds]; [congruence |]. simpl.
  inversion Hd; subst. now apply decimal_not_space.
Qed.

Lemma stops_blank b s :
  blank b -> stops is_decimal s -> stops is_decimal (b ++ s).
Proof.
  intros Hb Hs. destruct b as [| c b]; [exact Hs |]. simpl.
  inversion Hb; subst. now apply space_not_decimal.
Qed.





Lemma range_re_sound s g1 g2 :
  range_re s = Some (g1, g2) ->
  exists b1 b2 b3 b4,
    s = b1 ++ g1 ++ b2 ++ U "-" ++ b3 ++ g2 ++ b4
    /\ blank b1 /\ blank b2 /\ blank b3 /\ blank b4
    /\ digits g1 /\ digits g2.
Proof.
  unfold range_re, lstrip_with.
  destruct (span_spec is_space s) as (E0 & B1 & _).
  destruct (span is_space s) as [b1 s0]. simpl in *.
  pose proof (span_digits s0) as D1.
  destruct (span_spec is_decimal s0) as (E1 & _ & _).
  destruct (span is_decimal s0) as [a s1]. simpl in *.
  destruct a as [| c a]; [discriminate |].
  destruct (span_spec is_space s1) as (E2 & B2 & _).
  destruct (span is_space s1) as [b2 s2]. simpl in *.
  destruct s2 as [| x s2]; [discriminate |].
  destruct (N.eqb_spec x (ch "-")) as [-> | _]; [| discriminate].
  destruct (span_spec is_space s2) as (E3 & B3 & _).
  destruct (span is_space s2) as [b3 s3]. simpl in *.
  pose proof (span_digits s3) as D2.
  destruct (span_spec is_decimal s3) as (E4 & _ & _).
  destruct (span is_decimal s3) as [b s4]. simpl in *.
  destruct b as [| c' b]; [discriminate |].
  destruct (span_spec is_space s4) as (E5 & B4 & St).
  destruct (span is_space s4) as [b4 s5]. simpl in *.
  destruct s5; [| discriminate].
  intros Hs. inversion Hs; subst g1 g2. exists b1, b2, b3, b4.
  repeat split; try assumption; try discriminate;
    try (apply D1; discriminate); try (apply D2; discriminate).
  rewrite E0, E1, E2, E3, E4, E5, app_nil_r. reflexivity.
Qed.

Lemma num_re_complete b1 ds b2 :
  blank b1 -> blank b2 -> digits ds -> num_re (b1 ++ ds ++ b2) = Some ds.
Proof.
  intros H1 H2 Hd. unfold num_re.
  rewrite lstrip_with_app; [| assumption | now apply stops_digits_space].
  rewrite span_app; [| now apply digits_decimal |].
  2: { rewrite <- (app_nil_r b2). apply stops_blank; [assumption | exact I]. }
  rewrite lstrip_with_all by assumption.
  destruct Hd as [Hn _]. destruct ds; [congruence | reflexivity].
Qed.

Lemma num_re_sound s g :
  num_re s = Some g ->
  exists b1 b2, s = b1 ++ g ++ b2 /\ blank b1 /\ blank b2 /\ digits g.
Proof.
  unfold num_re, lstrip_with.
  destruct (span_spec is_space s) as (E0 & B1 & _).
  destruct (span is_space s) as [b1 s0]. simpl in *.
  pose proof (span_digits s0) as D1.
  destruct (span_spec is_decimal s0) as (E1 & _ & _).
  destruct (span is_decimal s0) as [a s1]. simpl in *.
  destruct a as [| c a]; [discriminate |].
  destruct (span_spec is_space s1) as (E2 & B2 & _).
  destruct (span is_space s1) as [b2 s2]. simpl in *.
  destruct s2; [| discriminate].
  intros Hs. inversion Hs; subst g. exists b1, b2.
  repeat split; try assumption; try discriminate;
    try (apply D1; discriminate).
  rewrite E0, E1, E2, app_nil_r. reflexivity.
Qed.



End WeekTexts.

(** *** What [parse_weeks] returns on well-formed texts *)

Section ParseWeeksDenotes.
Context `{UnicodeData}.




Lemma sorted_nodup_lt l :
  StronglySorted Z.le l -> NoDup l -> StronglySorted Z.lt l.
Proof.
  induction 1 as [| x l Hs IH Hx]; intros Hd; constructor.
  - apply IH. now inversion Hd.
  - inversion Hd as [| ? ? Hnin Hd']; subst.
    rewrite Forall_forall in *. intros y Hy.
    specialize (Hx y Hy). assert (x <> y) by (intros ->; auto). lia.
Qed.



Example parse_weeks_examples :
  parse_weeks (U "2-4,10") 30 = [2; 3; 4; 10]
  /\ parse_weeks (U "5-2") 30 = [2; 3; 4; 5]
  /\ parse_weeks (U "10, 3 - 1 ,2,29-35") 30 = [1; 2; 3; 10; 29; 30]
  /\ parse_weeks (U "40") 30 = range 1 31.
Proof. repeat split; vm_compute; reflexivity. Qed.

End ParseWeeksDenotes.




(** * Further properties of the parsers and the week calculator *)

Section ParseWeeksInvariant.
Context `{UnicodeData}.

Lemma range_sorted a b : StronglySorted Z.lt (range a b).
Proof.
  unfold range. remember (Z.to_nat (b - a)) as n eqn:En.
  revert a b En. induction n as [| n IH]; intros a b En.
  - rewrite seqZ_nil by lia. constructor.
  - rewrite seqZ_cons by lia. constructor.
    + replace (Z.pred (b - a)) with (b - Z.succ a) by lia.
      apply IH. lia.
    + apply Forall_forall. intros v Hv. apply elem_of_seqZ in Hv. lia.
Qed.

(** Whatever the text, the weeks returned are strictly ascending (so none
    comes twice), lie in 1..max_week, and there is at least one of them as
    soon as the horizon itself is not empty. *)
Theorem parse_weeks_invariant spec max_week :
  StronglySorted Z.lt (parse_weeks spec max_week)
  /\ (forall w, w ∈ parse_weeks spec max_week -> 1 <= w <= max_week)
  /\ (parse_weeks spec max_week = [] <-> max_week < 1).
Proof.
  split; [| split].
  - rewrite parse_weeks_unfold. destruct (decide _) as [_ | _].
    + apply range_sorted.
    + apply sorted_nodup_lt.
      * apply StronglySorted_merge_sort; apply _.
      * rewrite merge_sort_Permutation. apply NoDup_elements.
  - intros w. apply parse_weeks_bounds.
  - rewrite parse_weeks_unfold. destruct (decide _) as [He | Hne].
    + unfold range. split.
      * intros Hn. apply (f_equal (@length _)) in Hn.
        rewrite length_seqZ in Hn. simpl in Hn. lia.
      * intros Hm. apply seqZ_nil. lia.
    + split.
      * intros Hn. destruct Hne. apply set_eq. intros v. split.
        -- intros Hv. apply elem_of_elements in Hv.
           rewrite <- merge_sort_Permutation, Hn in Hv.
           now apply elem_of_nil in Hv.
        -- intros Hv. now apply not_elem_of_empty in Hv.
      * intros Hm. destruct Hne. apply set_eq. intros v. split.
        -- intros Hv. apply elem_of_weeks_set in Hv as (_ & _ & _ & Hb). lia.
        -- intros Hv. now apply not_elem_of_empty in Hv.
Qed.

End ParseWeeksInvariant.

Section WeekWindows.

(** Week k, for k at least 1, is the span of seven days that starts
    7(k-1) days after the start of the semester; week 0 is all the time
    before it. *)
Theorem week_number_window today start k :
  week_number today start = k
  <-> (k = 0 /\ days_between today start < 0)
      \/ (1 <= k /\ 7 * (k - 1) <= days_between today start < 7 * k).
Proof.
  unfold week_number.
  destruct (Z.geb_spec (days_between today start) 0) as [Hp | Hn].
  - split.
    + intros <-. right. Z.div_mod_to_equations. lia.
    + intros [[_ Hd] | [Hk Hd]]; [lia |].
      assert (days_between today start / 7 = k - 1); [| lia].
      symmetry. apply (Z.div_unique _ 7 (k - 1)
                         (days_between today start - 7 * (k - 1))); lia.
  - split; [intros <-; left; lia | intros [[-> _] | [Hk Hd]]; lia].
Qed.

(** A later day never has a smaller week number. *)
Theorem week_number_monotone today today' start :
  valid_date today -> valid_date today' ->
  date_ge today' today = true ->
  week_number today start <= week_number today' start.
Proof.
  intros Hv Hv' Hge. apply (date_ge_toordinal today' today Hv' Hv) in Hge.
  unfold week_number, days_between.
  destruct (Z.geb_spec (toordinal today - toordinal start) 0);
    destruct (Z.geb_spec (toordinal today' - toordinal start) 0);
    try lia; Z.div_mod_to_equations; lia.
Qed.

End WeekWindows.

Lemma week_number_monotone_witness :
  week_number sept_2 sept_2 <= week_number sept_16 sept_2.
Proof.
  apply (week_number_monotone sept_2 sept_16 sept_2);
    [vm_compute; intuition discriminate
    | vm_compute; intuition discriminate | reflexivity].
Defined.

Section AddLessonResult.
Context `{UnicodeData}.

(** What [strip] returns neither starts nor ends with a stripped
    character. *)
Lemma strip_with_trimmed p s : trimmed p (strip_with p s).
Proof.
  unfold strip_with, rstrip_with, lstrip_with.
  destruct (span_spec p s) as (_ & _ & Hl).
  set (x := (span p s).2) in *.
  destruct (span_spec p (rev x)) as (Ex & Ha & Hr).
  set (a := (span p (rev x)).1) in *. set (b := (span p (rev x)).2) in *.
  assert (x = rev b ++ rev a) as Hx.
  { rewrite <- rev_app_distr, <- Ex. now rewrite rev_involutive. }
  split; [| now rewrite rev_involutive].
  destruct (rev b) as [| c r] eqn:Eb; [exact I |].
  rewrite Hx in Hl. exact Hl.
Qed.

(** The tokens of [split_ws] are non-empty and hold no whitespace. *)
Lemma split_ws_go_tokens cur s tok :
  Forall (fun c => is_space c = false) cur ->
  tok ∈ split_ws_go cur s -> tok <> [] /\ ws_free tok.
Proof.
  revert cur. induction s as [| c s IH]; intros cur Hc Hin; simpl in Hin.
  - destruct cur as [| x cur]; [now apply elem_of_nil in Hin |].
    apply list_elem_of_singleton in Hin. subst tok. split.
    + intros Hr. apply (f_equal (@length _)) in Hr.
      rewrite length_rev in Hr. discriminate.
    + now apply List.Forall_rev.
  - destruct (is_space c) eqn:Es.
    + destruct cur as [| x cur]; [now apply (IH []) |].
      apply elem_of_cons in Hin as [-> | Hin]; [| now apply (IH [])]. split.
      * intros Hr. apply (f_equal (@length _)) in Hr.
        rewrite length_rev in Hr. discriminate.
      * now apply List.Forall_rev.
    + apply (IH (c :: cur)); [constructor |]; assumption.
Qed.

Lemma split_ws_tokens s tok : tok ∈ split_ws s -> tok <> [] /\ ws_free tok.
Proof. apply split_ws_go_tokens. constructor. Qed.

Lemma in_SLOTS_range slot : in_SLOTS slot = true <-> 1 <= slot <= 4.
Proof.
  unfold in_SLOTS. rewrite bool_decide_eq_true. cbn.
  rewrite !elem_of_cons, elem_of_nil. lia.
Qed.

Lemma detect_parity_range tok :
  detect_parity tok ∈ [None; Some (U "odd"); Some (U "even")].
Proof.
  unfold detect_parity. destruct (str_in _ _).
  - apply list_elem_of_further, list_elem_of_here.
  - destruct (str_in _ _).
    + do 2 apply list_elem_of_further. apply list_elem_of_here.
    + apply list_elem_of_here.
Qed.

Lemma parity_and_room_result after p r :
  parity_and_room after = inl (p, r) ->
  p ∈ [None; Some (U "odd"); Some (U "even")] /\ room_shape r.
Proof.
  unfold parity_and_room. destruct after as [| c after']; [discriminate |].
  destruct (split_ws (c :: after')) as [| tok rest]; [discriminate |].
  pose proof (detect_parity_range tok) as Hp.
  destruct (detect_parity tok) as [q |].
  - pose proof (parse_room_outcome (tok :: rest) 1) as Ho.
    destruct (_parse_room_from_tokens (tok :: rest) 1) as [room |];
      [| discriminate].
    intros Hr. inversion Hr; subst. split; [exact Hp |].
    now destruct Ho as (_ & _ & _ & Hs).
  - pose proof (parse_room_outcome (tok :: rest) 0) as Ho.
    destruct (_parse_room_from_tokens (tok :: rest) 0) as [room |];
      [| discriminate].
    intros Hr. inversion Hr; subst. split; [exact Hp |].
    now destruct Ho as (_ & _ & _ & Hs).
Qed.

(** The checks an accepted command has passed. *)
Lemma parse_add_checks args group day slot lesson :
  parse_add_lesson_args args = inl (group, day, slot, lesson) ->
  str_in day RU_WEEKDAYS = true /\ in_SLOTS slot = true.
Proof.
  unfold parse_add_lesson_args, lesson_head. intros Hp.
  destruct (len (split_ws args) <? 4); [discriminate |].
  destruct (str_in _ RU_WEEKDAYS) eqn:Ed; [| discriminate].
  destruct (int (nth 2 (split_ws args) [])) as [slot' |]; [| discriminate].
  destruct (in_SLOTS slot') eqn:Es; [| discriminate]. simpl in Hp.
  destruct (_ || _); [discriminate |].
  destruct (parity_and_room _) as [[p r] |]; [| discriminate].
  inversion Hp; subst. now split.
Qed.

(** An accepted command names a real place in the timetable: the group is
    a non-empty word without whitespace, the day is one of the seven
    weekday names, in lower case, and the slot is one of 1..4. *)
Theorem add_lesson_key_valid args group day slot lesson :
  parse_add_lesson_args args = inl (group, day, slot, lesson) ->
  group <> [] /\ ws_free group /\ day ∈ RU_WEEKDAYS /\ 1 <= slot <= 4.
Proof.
  unfold parse_add_lesson_args, lesson_head. intros Hp.
  destruct (Z.ltb_spec (len (split_ws args)) 4) as [| Hl]; [discriminate |].
  destruct (str_in _ RU_WEEKDAYS) eqn:Ed; [| discriminate].
  destruct (int (nth 2 (split_ws args) [])) as [slot' |]; [| discriminate].
  destruct (in_SLOTS slot') eqn:Es; [| discriminate]. simpl in Hp.
  destruct (_ || _); [discriminate |].
  destruct (parity_and_room _) as [[p r] |]; [| discriminate].
  inversion Hp; subst.
  assert (nth 0 (split_ws args) [] ∈ split_ws args) as Hin.
  { apply list_elem_of_In, nth_In. unfold len in Hl. lia. }
  apply split_ws_tokens in Hin as [Hn Hf].
  repeat split; try assumption.
  - now apply bool_decide_eq_true in Ed.
  - now apply in_SLOTS_range in Es.
  - now apply in_SLOTS_range in Es.
Qed.

(** The lesson of an accepted command is well formed: the parity is none,
    "odd" or "even"; the room has the shape the validator asks for; the
    title and the weeks text are trimmed and the weeks text is not
    empty. *)
Theorem add_lesson_fields_valid args group day slot lesson :
  parse_add_lesson_args args = inl (group, day, slot, lesson) ->
  parity lesson ∈ [None; Some (U "odd"); Some (U "even")]
  /\ room_shape (room lesson)
  /\ trimmed is_space (title lesson)
  /\ weeks_spec lesson <> [] /\ trimmed is_space (weeks_spec lesson).
Proof.
  unfold parse_add_lesson_args. intros Hp.
  destruct (lesson_head args) as [[[[[[g d] s] t] w] after] | err] eqn:Eh;
    [| discriminate].
  destruct (parity_and_room after) as [[p r] | err] eqn:Er; [| discriminate].
  inversion Hp; subst. simpl.
  apply parity_and_room_result in Er as [Hpar Hroom].
  destruct (lesson_head_brackets _ _ _ _ _ _ _ Eh)
    as (before & inside & rest & _ & _ & _ & _ & -> & -> & _).
  split; [exact Hpar |]. split; [exact Hroom |].
  split; [apply strip_with_trimmed |].
  pose proof (strip_with_trimmed is_space inside) as Ht.
  fold (strip inside) in Ht. destruct (strip inside) as [| c raw].
  - split; [discriminate | split; reflexivity].
  - split; [discriminate | exact Ht].
Qed.

End AddLessonResult.

Lemma add_lesson_key_valid_witness :
  U "ИВТ" <> [] /\ ws_free (U "ИВТ") /\ U "вторник" ∈ RU_WEEKDAYS /\ 1 <= 1 <= 4.
Proof.
  exact (add_lesson_key_valid (H := basic_unicode) _ _ _ _ _
           (add_lesson_empty_brackets (H := basic_unicode))).
Defined.

Lemma add_lesson_fields_valid_witness :
  None ∈ [None; Some (U "odd"); Some (U "even")]
  /\ room_shape (H := basic_unicode) (U "202")
  /\ trimmed is_space (U "Физика")
  /\ U "1-30" <> [] /\ trimmed is_space (U "1-30").
Proof.
  exact (add_lesson_fields_valid (H := basic_unicode) _ _ _ _ _
           (add_lesson_empty_brackets (H := basic_unicode))).
Defined.

(** ** When the tail of the add command is the text after the slot *)

Section TailAfterSlot.

Lemma startswith_spec p s : startswith p s = true <-> exists r, s = p ++ r.
Proof.
  revert s. induction p as [| x p IH]; intros s; simpl.
  - split; [intros _; now exists s | reflexivity].
  - destruct s as [| y s].
    + split; [discriminate | intros [r Hr]; discriminate].
    + rewrite andb_true_iff, N.eqb_eq, IH. split.
      * intros [-> [r ->]]. now exists r.
      * intros [r Hr]. inversion Hr; subst. eauto.
Qed.

(** With no split left, the rest of the text is one piece, once the
    separator being passed over is behind. *)
Lemma split_go_spent_value sep k cur s :
  split_go sep k (Some 0%nat) cur s = [rev cur ++ drop k s].
Proof.
  revert k cur. induction s as [| c s IH]; intros k cur; simpl.
  - now rewrite drop_nil, app_nil_r.
  - destruct k as [| k]; rewrite IH; simpl; [| reflexivity].
    now rewrite <- app_assoc.
Qed.

(** The separator occurs in [pre ++ sep] only at the end. *)
Definition first_occurrence (sep pre : str) : Prop :=
  forall a b, pre ++ sep = a ++ sep ++ b -> a = pre.

(** [split] with one split allowed cuts at the first occurrence. *)
Lemma split_go_first sep pre rest cur :
  sep <> [] -> first_occurrence sep pre ->
  split_go sep 0 (Some 1%nat) cur (pre ++ sep ++ rest)
  = [rev cur ++ pre; rest].
Proof.
  intros Hn. revert cur. induction pre as [| c pre IH]; intros cur Hf.
  - destruct sep as [| x sep]; [congruence |].
    change ([] ++ (x :: sep) ++ rest) with (x :: sep ++ rest).
    cbn [split_go]. change (x :: sep ++ rest) with ((x :: sep) ++ rest).
    rewrite startswith_app. cbn [andb fmap option_fmap option_map length].
    rewrite split_go_spent_value, app_nil_r. simpl.
    replace (length sep - 0)%nat with (length sep) by lia.
    now rewrite drop_app_length.
  - change ((c :: pre) ++ sep ++ rest) with (c :: pre ++ sep ++ rest).
    cbn [split_go].
    destruct (startswith sep (c :: pre ++ sep ++ rest)) eqn:Es.
    + exfalso. apply startswith_spec in Es as [r Hr].
      assert ((c :: pre) ++ sep = [] ++ sep ++ take (length (c :: pre)) r)
        as Hb.
      { apply (f_equal (take (length ((c :: pre) ++ sep)))) in Hr.
        change (c :: pre ++ sep ++ rest) with ((c :: pre) ++ sep ++ rest) in Hr.
        rewrite app_assoc, take_app_length in Hr. rewrite Hr.
        rewrite take_app_ge by (cbn [app length]; rewrite length_app; lia).
        cbn [app length]. f_equal. f_equal. rewrite length_app. lia. }
      apply Hf in Hb. discriminate.
    + cbn [andb]. rewrite IH.
      * simpl. now rewrite <- app_assoc.
      * intros a b Hab. specialize (Hf (c :: a) b). simpl in Hf.
        rewrite Hab in Hf. specialize (Hf eq_refl). now inversion Hf.
Qed.

(** Lines 424-426 do what their comment says when the slot token first
    occurs at its own place: the tail is the trimmed text after it, less
    a copy of the slot number at its start. *)
Theorem lesson_tail_first pre slot_tok rest slot :
  slot_tok <> [] -> first_occurrence slot_tok pre ->
  lesson_tail (pre ++ slot_tok ++ rest) slot_tok slot
  = if startswith (str_of_int slot) (strip rest)
    then strip (drop (length (str_of_int slot)) (strip rest))
    else strip rest.
Proof.
  intros Hn Hf. unfold lesson_tail, split.
  rewrite split_go_first by assumption. cbn [nth].
  destruct (startswith (str_of_int slot) (strip rest)) eqn:Es;
    [| reflexivity].
  unfold len. rewrite slice_from. reflexivity.
Qed.

End TailAfterSlot.

Lemma slot_first_ex : first_occurrence (U "2") (U "ИВТ понедельник ").
Proof.
  intros a b Hab.
  assert (length a <= 16)%nat as Hl.
  { apply (f_equal (@length _)) in Hab. rewrite !length_app in Hab.
    simpl in Hab. lia. }
  do 17 (destruct a as [| ? a]; [try discriminate; try reflexivity |];
         try (simpl in Hl; lia)).
  all: simpl in Hab; inversion Hab; subst; reflexivity.
Qed.

Lemma lesson_tail_first_witness :
  lesson_tail (U "ИВТ понедельник 2 Алгебра(2-13) 101") (U "2") 2
  = U "Алгебра(2-13) 101".
Proof.
  apply (lesson_tail_first (U "ИВТ понедельник ") (U "2")
           (U " Алгебра(2-13) 101") 2); [discriminate | exact slot_first_ex].
Defined.

Section TitleAfterSlot.
Context `{UnicodeData}.

(** A word: a non-empty text without whitespace. *)
Definition word (tok : str) : Prop := tok <> [] /\ ws_free tok.

(** A text at which a word ends: it is empty or starts with whitespace. *)
Definition breaks (s : str) : Prop :=
  match s with [] => True | c :: _ => is_space c = true end.

Lemma split_ws_go_word cur tok rest :
  ws_free tok ->
  split_ws_go cur (tok ++ rest) = split_ws_go (rev tok ++ cur) rest.
Proof.
  intros Hf. revert cur. induction Hf as [| c tok Hc Hf IH]; intros cur;
    [reflexivity |].
  simpl. rewrite Hc, IH. now rewrite <- app_assoc.
Qed.

Lemma split_ws_go_blank b s :
  blank b -> split_ws_go [] (b ++ s) = split_ws_go [] s.
Proof.
  intros Hb. induction Hb as [| c b Hc Hb IH]; [reflexivity |].
  simpl. now rewrite Hc.
Qed.

(** The first token of a text that starts with blanks and a word. *)
Lemma split_ws_word b tok rest :
  blank b -> word tok -> breaks rest ->
  split_ws (b ++ tok ++ rest) = tok :: split_ws rest.
Proof.
  intros Hb [Hn Hf] Hr. unfold split_ws.
  rewrite split_ws_go_blank, split_ws_go_word by assumption.
  rewrite app_nil_r.
  assert (rev tok <> []) as Hrev.
  { intros Hx. apply (f_equal (@length _)) in Hx.
    rewrite length_rev in Hx. destruct tok; [congruence | discriminate]. }
  destruct rest as [| c r]; simpl.
  - destruct (rev tok) eqn:E; [congruence |]. rewrite <- E.
    now rewrite rev_involutive.
  - simpl in Hr. rewrite Hr.
    destruct (rev tok) eqn:E; [congruence |]. rewrite <- E.
    now rewrite rev_involutive.
Qed.

Lemma after_tokens_word n b tok rest :
  blank b -> word tok -> breaks rest ->
  after_tokens (S n) (b ++ tok ++ rest) = after_tokens n rest.
Proof.
  intros Hb [Hn Hf] Hr. simpl. f_equal.
  rewrite lstrip_with_app; [| assumption |].
  2: { destruct tok as [| c tok]; [congruence |]. inversion Hf; subst.
       assumption. }
  rewrite span_app; [reflexivity | |].
  - eapply Forall_impl; [exact Hf |]. intros c Hc. simpl in Hc.
    now rewrite Hc.
  - destruct rest as [| c r]; [exact I |]. simpl in Hr. now rewrite Hr.
Qed.

Lemma breaks_blank b s : blank b -> b <> [] -> breaks (b ++ s).
Proof.
  intros Hb Hn. destruct b as [| c b]; [congruence |]. simpl.
  now inversion Hb.
Qed.

(** A text is its trimmed part between two runs of blanks. *)
Lemma strip_decompose s :
  exists a b, s = a ++ strip s ++ b /\ blank a /\ blank b.
Proof.
  unfold strip, strip_with, rstrip_with, lstrip_with.
  destruct (span_spec is_space s) as (Es & Ha & _).
  set (a := (span is_space s).1) in *. set (x := (span is_space s).2) in *.
  destruct (span_spec is_space (rev x)) as (Ex & Hb & _).
  set (b := (span is_space (rev x)).1) in *.
  set (y := (span is_space (rev x)).2) in *.
  exists a, (rev b). repeat split.
  - rewrite Es at 1. f_equal. rewrite <- rev_app_distr, <- Ex.
    now rewrite rev_involutive.
  - exact Ha.
  - now apply List.Forall_rev.
Qed.

Lemma strip_blank_app a x : blank a -> strip (a ++ x) = strip x.
Proof.
  intros Ha. unfold strip, strip_with. f_equal.
  induction Ha as [| c a Hc Ha IH]; [reflexivity |].
  unfold lstrip_with in *. simpl. rewrite Hc.
  destruct (span is_space (a ++ x)). exact IH.
Qed.

Lemma first_char_unique (c : char) x y x' y' :
  x ++ c :: y = x' ++ c :: y' -> c ∉ x -> c ∉ x' -> x = x'.
Proof.
  revert x'. induction x as [| u x IH]; intros x' He Hx Hx'.
  - destruct x' as [| u' x']; [reflexivity |].
    simpl in He. inversion He; subst. rewrite not_elem_of_cons in Hx'.
    now destruct Hx'.
  - destruct x' as [| u' x'].
    + simpl in He. inversion He; subst. rewrite not_elem_of_cons in Hx.
      now destruct Hx.
    + simpl in He. inversion He; subst.
      rewrite not_elem_of_cons in Hx, Hx'. f_equal.
      apply (IH x'); tauto.
Qed.

(** A command made of blanks, group, day and slot words and the rest. *)
Definition command_shape (args b0 g b1 d b2 s rest : str) : Prop :=
  args = b0 ++ g ++ b1 ++ d ++ b2 ++ s ++ rest
  /\ blank b0 /\ blank b1 /\ b1 <> [] /\ blank b2 /\ b2 <> []
  /\ word g /\ word d /\ word s /\ breaks rest.

Lemma command_shape_tokens args b0 g b1 d b2 s rest :
  command_shape args b0 g b1 d b2 s rest ->
  split_ws args = g :: d :: s :: split_ws rest
  /\ after_tokens 3 args = rest.
Proof.
  intros (-> & H0 & H1 & N1 & H2 & N2 & Hg & Hd & Hs & Hr). split.
  - rewrite split_ws_word; [| assumption | assumption | now apply breaks_blank].
    rewrite split_ws_word; [| assumption | assumption | now apply breaks_blank].
    now rewrite split_ws_word.
  - rewrite after_tokens_word;
      [| assumption | assumption | now apply breaks_blank].
    rewrite after_tokens_word;
      [| assumption | assumption | now apply breaks_blank].
    now rewrite after_tokens_word.
Qed.

(** The title is the one the specification describes as soon as the slot
    token does not occur earlier in the command and the text after it
    does not start with the slot number. *)
Theorem title_when_slot_first args b0 g b1 d b2 s rest group day slot lesson :
  command_shape args b0 g b1 d b2 s rest ->
  first_occurrence s (b0 ++ g ++ b1 ++ d ++ b2) ->
  startswith (str_of_int slot) (strip rest) = false ->
  parse_add_lesson_args args = inl (group, day, slot, lesson) ->
  title lesson = title_by_spec args.
Proof.
  intros Hshape Hfirst Hstart Hp.
  destruct (command_shape_tokens _ _ _ _ _ _ _ _ Hshape) as [Htok Hafter].
  destruct Hshape as (Hargs & _ & _ & _ & _ & _ & _ & _ & [Hsn _] & _).
  unfold parse_add_lesson_args in Hp.
  destruct (lesson_head args) as [[[[[[g' d'] s'] t] w] after] | err] eqn:Eh;
    [| discriminate].
  destruct (parity_and_room after) as [[p r] | err]; [| discriminate].
  inversion Hp; subst g' d' s' lesson. simpl. clear Hp.
  destruct (lesson_head_brackets _ _ _ _ _ _ _ Eh)
    as (before & inside & rest' & Et & Hb & _ & _ & -> & _ & _).
  rewrite Htok in Et. cbn [nth] in Et.
  assert (lesson_tail args s slot = strip rest) as Hl.
  { rewrite Hargs.
    replace (b0 ++ g ++ b1 ++ d ++ b2 ++ s ++ rest)
      with ((b0 ++ g ++ b1 ++ d ++ b2) ++ s ++ rest)
      by (now rewrite <- !app_assoc).
    unfold lesson_tail, split. rewrite split_go_first by assumption.
    cbn [nth]. now rewrite Hstart. }
  rewrite Hl in Et. unfold title_by_spec. rewrite Hafter.
  destruct (strip_decompose rest) as (a & b & Er & Ha & Hbb).
  destruct (find_char (ch "(") rest) as [[_ Hno] | (a' & b' & Er' & Ha' & Hf)].
  { destruct Hno. rewrite Er, Et, !elem_of_app. right. left. right. left.
    apply list_elem_of_here. }
  assert (a' = a ++ before) as ->.
  { apply (first_char_unique (ch "(") a' b' (a ++ before)
             (inside ++ U ")" ++ rest' ++ b)); [| assumption |].
    - rewrite <- Er'. rewrite Er at 1. rewrite Et, <- !app_assoc. reflexivity.
    - rewrite not_elem_of_app. split; [| assumption].
      intros Hin. unfold blank in Ha. rewrite Forall_forall in Ha.
      apply Ha in Hin. discriminate. }
  rewrite Hf. unfold len. rewrite slice_to.
  - rewrite Er' at 1. rewrite take_app_length. now rewrite strip_blank_app.
  - rewrite Er' at 1. rewrite !length_app. lia.
Qed.

End TitleAfterSlot.

Lemma title_when_slot_first_witness :
  U "Алгебра" = title_by_spec (U "ИВТ понедельник 2 Алгебра(2-13) н/н 101").
Proof.
  apply (title_when_slot_first (H := basic_unicode)
           (U "ИВТ понедельник 2 Алгебра(2-13) н/н 101")
           [] (U "ИВТ") (U " ") (U "понедельник") (U " ") (U "2")
           (U " Алгебра(2-13) н/н 101")
           (U "ИВТ") (U "понедельник") 2
           {| title := U "Алгебра"; room := U "101"; weeks_spec := U "2-13";
              weeks := [2; 3; 4; 5; 6; 7; 8; 9; 10; 11; 12; 13];
              parity := Some (U "odd") |}).
  - unfold command_shape, word, blank, ws_free.
    repeat match goal with
           | |- _ /\ _ => split
           | |- Forall _ _ => repeat constructor
           | |- _ <> _ => discriminate
           | |- _ = _ => reflexivity
           end.
    reflexivity.
  - exact slot_first_ex.
  - vm_compute. reflexivity.
  - exact (proj1 (title_plain_group (H := basic_unicode))).
Defined.

(** * The add command

    The handler [add_lesson] of lines 470-499: it parses the command, puts
    the lesson into the document under (group, day, slot) and saves the
    document. *)

Definition nl : str := [10%N].

(** The reply to a command that does not parse, before the message of the
    parser. *)
Definition msg_add_usage : str :=
  U "Формат: /add_lesson <группа> <день> <слот> Название(недели) [н/н|ч/н] Аудитория"
  ++ nl ++ U "Примеры:"
  ++ nl ++ U "• /add_lesson ИВТ-21 понедельник 2 Алгебра(2-13) н/н 101"
  ++ nl ++ U "• /add_lesson ИВТ-21 вторник 1 Физика(2-4,10) 202"
  ++ nl ++ U "Ошибка разбора: ".

(** [SLOTS[slot]]; the slot comes from a parsed command and is a key. *)
Definition slot_label (slot : Z) : str :=
  default (U "") (snd <$> head (filter (fun kv => kv.1 = slot) SLOTS)).

(** The table of line 493, [None] where the source has no key; the
    parser yields no parity outside the table. *)
Definition par_str (p : option str) : option str :=
  match p with
  | None => Some (U "—")
  | Some s =>
    if bool_decide (s = U "odd") then Some (U "н/н")
    else if bool_decide (s = U "even") then Some (U "ч/н")
    else None
  end.

Definition msg_added (group day : str) (slot : Z) (lesson : Lesson) : str :=
  U "✅ Добавлено: **" ++ group ++ U "** • " ++ day ++ U " • "
  ++ str_of_int slot ++ U ") " ++ slot_label slot ++ nl
  ++ title lesson ++ U " (" ++ room lesson ++ U ")" ++ nl
  ++ U "Недели: " ++ weeks_spec lesson ++ U " • Паритет: "
  ++ default (U "") (par_str (parity lesson)).

(** Lines 489-490: the group and the day are created when missing, then
    the lesson is put under the slot. *)
Definition store_lesson (schedules : schedules_doc) (group day key : str)
    (lesson : Lesson) : schedules_doc :=
  let g := default ∅ (schedules !! group) in
  let d := default ∅ (g !! day) in
  <[group := <[day := <[key := Stored lesson]> d]> g]> schedules.

Section AddHandler.
Context `{UnicodeData}.
Variable ADMIN_ID : Z.

Definition add_lesson (from_user : Z) (command_args : option str) : M unit :=
  if negb (is_admin ADMIN_ID from_user) then answer msg_admin_only
  else
    let args := strip (default (U "") command_args) in
    match parse_add_lesson_args args with
    | inr err => answer (msg_add_usage ++ err)
    | inl (group, day, slot, lesson) =>
      schedules <- load_schedules ;;
      let schedules' :=
        store_lesson schedules group day (str_of_int slot) lesson in
      save_schedules schedules' ;;;
      answer (msg_added group day slot lesson)
    end.

End AddHandler.

(** ** Properties of the add and delete commands *)

Section StoreProperties.

Lemma stored_at_store_lesson doc group day key lesson :
  stored_at (store_lesson doc group day key lesson) group day key
  = Some (Stored lesson).
Proof.
  unfold stored_at, store_lesson.
  now rewrite !lookup_insert_eq.
Qed.

Lemma stored_at_store_lesson_other doc group day key lesson group' day' key' :
  (group', day', key') <> (group, day, key) ->
  stored_at (store_lesson doc group day key lesson) group' day' key'
  = stored_at doc group' day' key'.
Proof.
  intros Hne. unfold stored_at, store_lesson.
  destruct (decide (group = group')) as [<- | Hg].
  2: { now rewrite lookup_insert_ne. }
  rewrite lookup_insert_eq.
  destruct (decide (day = day')) as [<- | Hd].
  2: { rewrite lookup_insert_ne by assumption.
       destruct (doc !! group) as [g |]; simpl; [reflexivity |].
       now rewrite lookup_empty. }
  rewrite lookup_insert_eq.
  destruct (decide (key = key')) as [<- | Hk]; [congruence |].
  rewrite lookup_insert_ne by assumption.
  destruct (doc !! group) as [g |]; simpl.
  - destruct (g !! day) as [d |]; simpl; [reflexivity | now rewrite lookup_empty].
  - now rewrite !lookup_empty.
Qed.

(** What [pop_lesson] leaves in the document. *)
Lemma stored_at_pop_lesson doc group day key :
  stored_at (pop_lesson doc group day key).2 group day key = None.
Proof.
  unfold stored_at, pop_lesson.
  destruct (doc !! group) as [g |] eqn:Eg; simpl; [| now rewrite Eg].
  destruct (g !! day) as [d |] eqn:Ed; simpl.
  - rewrite !lookup_insert_eq. apply lookup_delete_eq.
  - now rewrite Eg, Ed.
Qed.

Lemma stored_at_pop_lesson_other doc group day key group' day' key' :
  (group', day', key') <> (group, day, key) ->
  stored_at (pop_lesson doc group day key).2 group' day' key'
  = stored_at doc group' day' key'.
Proof.
  intros Hne. unfold stored_at, pop_lesson.
  destruct (doc !! group) as [g |] eqn:Eg; simpl; [| reflexivity].
  destruct (g !! day) as [d |] eqn:Ed; simpl; [| reflexivity].
  destruct (decide (group = group')) as [<- | Hg].
  2: { now rewrite lookup_insert_ne. }
  rewrite lookup_insert_eq, Eg.
  destruct (decide (day = day')) as [<- | Hd].
  2: { now rewrite lookup_insert_ne. }
  rewrite lookup_insert_eq, Ed.
  destruct (decide (key = key')) as [<- | Hk]; [congruence |].
  now rewrite lookup_delete_ne.
Qed.

End StoreProperties.

Section HandlerProperties.
Context `{UnicodeData}.
Variable ADMIN_ID : Z.

(** The world after a reply only. *)
Definition replied (w : world) (text : str) : world :=
  {| schedule_file := schedule_file w; saved := saved w;
     answers := text :: answers w |}.

(** The world after the document was saved and a reply sent. *)
Definition saved_and_replied (w : world) (doc : schedules_doc) (text : str)
    : world :=
  {| schedule_file := doc; saved := doc :: saved w;
     answers := text :: answers w |}.

(** What the add command does on an accepted request of the
    administrator. *)
Lemma add_lesson_run from_user command_args w group day slot lesson :
  is_admin ADMIN_ID from_user = true ->
  parse_add_lesson_args (strip (default (U "") command_args))
  = inl (group, day, slot, lesson) ->
  add_lesson ADMIN_ID from_user command_args w
  = (tt, saved_and_replied w
           (store_lesson (schedule_file w) group day (str_of_int slot) lesson)
           (msg_added group day slot lesson)).
Proof. intros Ha Hp. unfold add_lesson. now rewrite Ha, Hp. Qed.

(** A lesson added by the administrator is found at its place afterwards;
    every other place of the document is as before; the document is saved
    once and the reply names the lesson. *)
Theorem add_lesson_stores from_user command_args w group day slot lesson :
  is_admin ADMIN_ID from_user = true ->
  parse_add_lesson_args (strip (default (U "") command_args))
  = inl (group, day, slot, lesson) ->
  let w' := (add_lesson ADMIN_ID from_user command_args w).2 in
  stored_at (schedule_file w') group day (str_of_int slot)
  = Some (Stored lesson)
  /\ (forall group' day' key',
        (group', day', key') <> (group, day, str_of_int slot) ->
        stored_at (schedule_file w') group' day' key'
        = stored_at (schedule_file w) group' day' key')
  /\ saved w' = schedule_file w' :: saved w
  /\ answers w' = msg_added group day slot lesson :: answers w.
Proof.
  intros Ha Hp. unfold add_lesson. rewrite Ha, Hp. simpl.
  repeat split.
  - apply stored_at_store_lesson.
  - intros g' d' k' Hne. now apply stored_at_store_lesson_other.
Qed.

(** A command that is not the administrator's, or does not parse, changes
    nothing: the document is not saved, and one reply is sent. *)
Theorem add_lesson_rejected from_user command_args w :
  is_admin ADMIN_ID from_user = false
  \/ (exists err, parse_add_lesson_args (strip (default (U "") command_args))
                  = inr err) ->
  exists text,
    add_lesson ADMIN_ID from_user command_args w = (tt, replied w text).
Proof.
  intros Hr. unfold add_lesson.
  destruct (is_admin ADMIN_ID from_user); simpl; [| eauto].
  destruct Hr as [Hx | [err He]]; [discriminate |]. rewrite He. eauto.
Qed.

(** What the delete command does on a well-formed request of the
    administrator. *)
Lemma del_lesson_run from_user command_args w group day slot_s rest slot :
  is_admin ADMIN_ID from_user = true ->
  split_ws (strip (default (U "") command_args))
  = group :: day :: slot_s :: rest ->
  str_in (lower day) RU_WEEKDAYS = true ->
  int slot_s = Some slot ->
  in_SLOTS slot = true ->
  del_lesson ADMIN_ID from_user command_args w
  = match stored_at (schedule_file w) group (lower day) (str_of_int slot) with
    | Some (Stored _) =>
      (tt, saved_and_replied w
             (pop_lesson (schedule_file w) group (lower day)
                (str_of_int slot)).2 msg_deleted)
    | _ => (tt, replied w msg_not_found)
    end.
Proof.
  intros Ha Hs Hd Hi Hslot. unfold del_lesson.
  rewrite Ha, Hs.
  replace (len (group :: day :: slot_s :: rest) <? 3) with false
    by (symmetry; apply Z.ltb_ge; unfold len; simpl; lia).
  cbn [nth negb]. rewrite Hd, Hi, Hslot. cbn [negb].
  unfold bind, load_schedules.
  pose proof (pop_lesson_value (schedule_file w) group (lower day)
                (str_of_int slot)) as Hp.
  destruct (pop_lesson (schedule_file w) group (lower day) (str_of_int slot))
    as [popped doc']. simpl in Hp. subst popped. simpl.
  destruct (stored_at _ _ _ _) as [[| l] |]; reflexivity.
Qed.

(** Deleting a stored lesson: the reply says so, the place is empty
    afterwards, every other place is as before, and the document is saved
    once. *)
Theorem del_lesson_found from_user command_args w group day slot_s rest slot
    lesson :
  is_admin ADMIN_ID from_user = true ->
  split_ws (strip (default (U "") command_args))
  = group :: day :: slot_s :: rest ->
  str_in (lower day) RU_WEEKDAYS = true ->
  int slot_s = Some slot ->
  in_SLOTS slot = true ->
  stored_at (schedule_file w) group (lower day) (str_of_int slot)
  = Some (Stored lesson) ->
  let w' := (del_lesson ADMIN_ID from_user command_args w).2 in
  answers w' = msg_deleted :: answers w
  /\ stored_at (schedule_file w') group (lower day) (str_of_int slot) = None
  /\ (forall group' day' key',
        (group', day', key') <> (group, lower day, str_of_int slot) ->
        stored_at (schedule_file w') group' day' key'
        = stored_at (schedule_file w) group' day' key')
  /\ saved w' = schedule_file w' :: saved w.
Proof.
  intros Ha Hs Hd Hi Hslot Hst.
  rewrite (del_lesson_run _ _ w _ _ _ _ _ Ha Hs Hd Hi Hslot), Hst. simpl.
  repeat split.
  - apply stored_at_pop_lesson.
  - intros g' d' k' Hne. now apply stored_at_pop_lesson_other.
Qed.

(** Deleting twice: whatever the first request did, the second one finds
    nothing, says so and saves nothing. *)
Theorem del_lesson_twice from_user command_args w group day slot_s rest slot :
  is_admin ADMIN_ID from_user = true ->
  split_ws (strip (default (U "") command_args))
  = group :: day :: slot_s :: rest ->
  str_in (lower day) RU_WEEKDAYS = true ->
  int slot_s = Some slot ->
  in_SLOTS slot = true ->
  let w1 := (del_lesson ADMIN_ID from_user command_args w).2 in
  del_lesson ADMIN_ID from_user command_args w1
  = (tt, replied w1 msg_not_found).
Proof.
  intros Ha Hs Hd Hi Hslot w1.
  rewrite (del_lesson_run _ _ w1 _ _ _ _ _ Ha Hs Hd Hi Hslot).
  assert (stored_at (schedule_file w1) group (lower day) (str_of_int slot)
          ∈ [None; Some Null]) as Hin.
  { subst w1. rewrite (del_lesson_run _ _ w _ _ _ _ _ Ha Hs Hd Hi Hslot).
    destruct (stored_at (schedule_file w) group (lower day) (str_of_int slot))
      as [[| l] |] eqn:Est; simpl.
    - rewrite Est. apply list_elem_of_further, list_elem_of_here.
    - rewrite stored_at_pop_lesson. apply list_elem_of_here.
    - rewrite Est. apply list_elem_of_here. }
  apply elem_of_cons in Hin as [-> | Hin]; [reflexivity |].
  apply list_elem_of_singleton in Hin. now rewrite Hin.
Qed.

(** Adding a lesson and deleting it at the same place: the delete finds
    it, the place is empty afterwards, and every other place is as it was
    before the two commands. *)
Theorem add_then_del from_user add_args del_args w group day slot lesson
    day_tok slot_tok rest :
  is_admin ADMIN_ID from_user = true ->
  parse_add_lesson_args (strip (default (U "") add_args))
  = inl (group, day, slot, lesson) ->
  split_ws (strip (default (U "") del_args))
  = group :: day_tok :: slot_tok :: rest ->
  lower day_tok = day ->
  int slot_tok = Some slot ->
  let w1 := (add_lesson ADMIN_ID from_user add_args w).2 in
  let w2 := (del_lesson ADMIN_ID from_user del_args w1).2 in
  answers w2 = msg_deleted :: answers w1
  /\ stored_at (schedule_file w2) group day (str_of_int slot) = None
  /\ forall group' day' key',
       (group', day', key') <> (group, day, str_of_int slot) ->
       stored_at (schedule_file w2) group' day' key'
       = stored_at (schedule_file w) group' day' key'.
Proof.
  intros Ha Hp Hs Hd Hi w1 w2.
  destruct (parse_add_checks _ _ _ _ _ Hp) as [Hday Hslot]. subst day.
  subst w2 w1. rewrite (add_lesson_run _ _ w _ _ _ _ Ha Hp). cbn [snd].
  rewrite (del_lesson_run _ _ _ _ _ _ _ _ Ha Hs Hday Hi Hslot).
  cbn [schedule_file saved_and_replied].
  rewrite stored_at_store_lesson. cbn [snd schedule_file answers
    saved_and_replied].
  repeat split.
  - apply stored_at_pop_lesson.
  - intros g' d' k' Hne. rewrite stored_at_pop_lesson_other by assumption.
    now apply stored_at_store_lesson_other.
Qed.

(** Nobody but the administrator changes the timetable, and when no
    administrator is configured (ADMIN_ID = 0), nobody at all: both
    commands answer with the refusal and leave the document alone. *)
Theorem only_admin_writes from_user command_args w :
  ADMIN_ID = 0 \/ from_user <> ADMIN_ID ->
  add_lesson ADMIN_ID from_user command_args w
  = (tt, replied w msg_admin_only)
  /\ del_lesson ADMIN_ID from_user command_args w
     = (tt, replied w msg_admin_only).
Proof.
  intros Hn. assert (is_admin ADMIN_ID from_user = false) as Ha.
  { unfold is_admin. destruct Hn as [-> | Hn]; [reflexivity |].
    destruct (Z.eqb_spec from_user ADMIN_ID); [congruence |].
    apply andb_false_r. }
  unfold add_lesson, del_lesson. now rewrite Ha.
Qed.

End HandlerProperties.

Definition physics : Lesson :=
  {| title := U "Физика"; room := U "202"; weeks_spec := U "1-30";
     weeks := range 1 31; parity := None |}.

Definition physics_world : world :=
  {| schedule_file :=
       {[ U "ИВТ" := {[ U "вторник" := {[ U "1" := Stored physics ]} ]} ]};
     saved := []; answers := [] |}.

Lemma add_lesson_stores_witness :
  stored_at
    (schedule_file
       (add_lesson (H := basic_unicode) 7 7
          (Some (U " ИВТ вторник 1 Физика() 202")) monday_world).2)
    (U "ИВТ") (U "вторник") (str_of_int 1)
  = Some (Stored physics).
Proof.
  exact (proj1 (add_lesson_stores (H := basic_unicode) 7 7
                  (Some (U " ИВТ вторник 1 Физика() 202")) monday_world
                  (U "ИВТ") (U "вторник") 1 physics eq_refl
                  ltac:(vm_compute; reflexivity))).
Defined.

Lemma add_lesson_rejected_witness :
  exists text,
    add_lesson (H := basic_unicode) 7 7 (Some (U "ИВТ вторник 1 Физика 202"))
      monday_world
    = (tt, replied monday_world text).
Proof.
  apply (add_lesson_rejected (H := basic_unicode) 7 7
           (Some (U "ИВТ вторник 1 Физика 202")) monday_world).
  right. exists msg_brackets. vm_compute. reflexivity.
Defined.

Lemma del_lesson_found_witness :
  stored_at
    (schedule_file
       (del_lesson (H := basic_unicode) 7 7 (Some (U "ИВТ Вторник 1"))
          physics_world).2)
    (U "ИВТ") (U "вторник") (U "1") = None.
Proof.
  exact (proj1 (proj2 (del_lesson_found (H := basic_unicode) 7 7
                         (Some (U "ИВТ Вторник 1")) physics_world
                         (U "ИВТ") (U "Вторник") (U "1") [] 1 physics
                         eq_refl eq_refl eq_refl eq_refl eq_refl
                         ltac:(vm_compute; reflexivity)))).
Defined.

Lemma del_lesson_twice_witness :
  del_lesson (H := basic_unicode) 7 7 (Some (U "ИВТ Вторник 1"))
    (del_lesson (H := basic_unicode) 7 7 (Some (U "ИВТ Вторник 1"))
       physics_world).2
  = (tt, replied
           (del_lesson (H := basic_unicode) 7 7 (Some (U "ИВТ Вторник 1"))
              physics_world).2 msg_not_found).
Proof.
  exact (del_lesson_twice (H := basic_unicode) 7 7
           (Some (U "ИВТ Вторник 1")) physics_world
           (U "ИВТ") (U "Вторник") (U "1") [] 1
           eq_refl eq_refl eq_refl eq_refl eq_refl).
Defined.

Lemma add_then_del_witness :
  stored_at
    (schedule_file
       (del_lesson (H := basic_unicode) 7 7 (Some (U "ИВТ Вторник 1"))
          (add_lesson (H := basic_unicode) 7 7
             (Some (U "ИВТ вторник 1 Физика() 202")) monday_world).2).2)
    (U "ИВТ") (U "вторник") (str_of_int 1) = None.
Proof.
  exact (proj1 (proj2 (add_then_del (H := basic_unicode) 7 7
                         (Some (U "ИВТ вторник 1 Физика() 202"))
                         (Some (U "ИВТ Вторник 1")) monday_world
                         (U "ИВТ") (U "вторник") 1 physics
                         (U "Вторник") (U "1") []
                         eq_refl ltac:(vm_compute; reflexivity)
                         eq_refl eq_refl eq_refl))).
Defined.

Lemma only_admin_writes_witness :
  add_lesson (H := basic_unicode) 0 0
    (Some (U "ИВТ вторник 1 Физика() 202")) monday_world
  = (tt, replied monday_world msg_admin_only).
Proof.
  exact (proj1 (only_admin_writes (H := basic_unicode) 0 0
                  (Some (U "ИВТ вторник 1 Физика() 202")) monday_world
                  (or_introl eq_refl))).
Defined.

(** * Rendering

    [sanitize_title], [room_badge], [e], [format_day] and [format_week] of
    lines 179-266.  [str.isdigit] and [str.capitalize] consult the Unicode
    tables as well; as for [lower], the tables are written out on ASCII
    and the basic Cyrillic block and left to the database elsewhere. *)

Class UnicodeCase := {
  unicode_isdigit : char -> bool;
  unicode_capitalize : str -> str
}.

Definition upper_basic (c : char) : char :=
  if ((97 <=? c) && (c <=? 122))%N then (c - 32)%N
  else if ((1072 <=? c) && (c <=? 1103))%N then (c - 32)%N
  else if ((1104 <=? c) && (c <=? 1119))%N then (c - 80)%N
  else c.

Section Rendering.
Context `{UnicodeData} `{UnicodeCase}.

(** [c.isdigit()] *)
Definition isdigit (c : char) : bool :=
  if basic c then ((48 <=? c) && (c <=? 57))%N else unicode_isdigit c.

(** [s.capitalize()]: the first character in upper case, the rest in
    lower case. *)
Definition capitalize (s : str) : str :=
  if forallb basic s
  then match s with
       | [] => []
       | c :: r => upper_basic c :: map lower_basic r
       end
  else unicode_capitalize s.

(** [re.sub(r"\s{2,}", " ", s)]: every maximal run of two or more
    whitespace characters becomes one space.  [run] is the run being read,
    reversed. *)
Definition flush_run (run : str) : str :=
  match run with
  | [] => []
  | [c] => [c]
  | _ :: _ :: _ => U " "
  end.

Fixpoint collapse_go (run : str) (s : str) : str :=
  match s with
  | [] => flush_run run
  | c :: s' =>
    if is_space c then collapse_go (c :: run) s'
    else flush_run run ++ c :: collapse_go [] s'
  end.

Definition collapse_spaces (s : str) : str := collapse_go [] s.

(** The two loops of [sanitize_title] that count leading digits. *)
Definition leading_digits (low : str) : nat := length (span isdigit low).1.

(** [s[n:].lstrip()] *)
Definition cut (n : nat) (s : str) : str :=
  lstrip_with is_space (slice (Some (Z.of_nat n)) None s).

(** The first weekday name that [low] starts with: the loop over
    [RU_WEEKDAYS] up to its [break]. *)
Fixpoint leading_day (days : list str) (low : str) : option str :=
  match days with
  | [] => None
  | day :: days' =>
    if startswith day low then Some day else leading_day days' low
  end.

Definition sanitize_title (title : str) : str :=
  let t := strip title in
  let low := lower t in
  let i := leading_digits low in
  let '(low, t) :=
    if ((0 <? i) && (i <=? 2))%nat then (cut i low, cut i t) else (low, t) in
  let '(low, t) :=
    match leading_day RU_WEEKDAYS low with
    | Some day =>
      let pos := length day in
      let low := cut pos low in
      let t := cut pos t in
      let j := leading_digits low in
      if (j =? 1)%nat then (cut j low, cut j t) else (low, t)
    | None => (low, t)
    end in
  strip (collapse_spaces t).

Definition room_badge (room : str) : str :=
  let r := lower room in
  if bool_decide (r = U "д/о") then U "🖥️"
  else if bool_decide (r = U "с/зал") then U "🏟️"
  else U "🏫".

(** [html.escape(s)] with its default [quote=True]: five replacements,
    the ampersand first. *)
Definition e (s : str) : str :=
  replace (U "'") (U "&#x27;")
    (replace [34%N] (U "&quot;")
       (replace (U ">") (U "&gt;")
          (replace (U "<") (U "&lt;")
             (replace (U "&") (U "&amp;") s)))).

(** The line of a lesson in a day's list. *)
Definition lesson_line (slot : Z) (lesson : Lesson) : str :=
  str_of_int slot ++ U ") <code>" ++ slot_label slot ++ U "</code> • "
  ++ e (sanitize_title (title lesson)) ++ U "  &lt;"
  ++ room_badge (room lesson) ++ e (room lesson) ++ U "&gt;".

(** One turn of the loop over the slots: [raw] that is missing or [null]
    is passed over. *)
Definition add_item (day_data : gmap str stored) (wk : Z)
    (items : list str) (slot : Z) : list str :=
  match day_data !! str_of_int slot with
  | Some (Stored lesson) =>
    if lesson_matches_week lesson wk
    then items ++ [lesson_line slot lesson]
    else items
  | _ => items
  end.

(** [sorted(SLOTS.keys())] *)
Definition sorted_slots : list Z := merge_sort Z.le SLOTS.*1.

Definition day_head (group day : str) (wk : Z) : str :=
  U "📅 <b>" ++ e group ++ U " — " ++ e (capitalize day)
  ++ U "</b> • неделя #" ++ str_of_int wk.

Definition format_day (group day : str) (wk : Z) (schedules : schedules_doc)
    : str :=
  let group_data := default ∅ (schedules !! group) in
  let day_data := default ∅ (group_data !! day) in
  let items := fold_left (add_item day_data wk) sorted_slots [] in
  day_head group day wk
  ++ match items with
     | [] => nl ++ U "Пар нет."
     | _ :: _ => nl ++ join nl items
     end.

(** The lines of one day in the week's view: its name, then its lessons
    or the mark that there are none. *)
Definition week_day_lines (group : str) (wk : Z) (schedules : schedules_doc)
    (dname : str) : list str :=
  let day_data :=
    default ∅ (default ∅ (schedules !! group) !! dname) in
  let items := fold_left (add_item day_data wk) sorted_slots [] in
  (nl ++ U "<b>" ++ e (capitalize dname) ++ U "</b>")
  :: match items with
     | [] => [U "— нет пар"]
     | _ :: _ => items
     end.

(** [today] is [datetime.now().date()]. *)
Definition format_week (today : date) (group : str) (start_dt : date)
    (schedules : schedules_doc) : str :=
  let wk := week_number today start_dt in
  let lines :=
    (U "🗓️ <b>" ++ e group ++ U " — расписание на неделю (текущая неделя #"
     ++ str_of_int wk ++ U ")</b>")
    :: flat_map (week_day_lines group wk schedules) RU_WEEKDAYS in
  join nl lines.

End Rendering.

(** The tables outside the basic blocks are not needed for the examples. *)
Definition basic_case : UnicodeCase :=
  {| unicode_isdigit := fun _ => false; unicode_capitalize := fun s => s |}.

Section RenderingExamples.
Context `{UnicodeData} `{UnicodeCase}.

Example sanitize_title_examples :
  sanitize_title (U "1 понедельник 2 Алгебра") = U "Алгебра"
  /\ sanitize_title (U "01 Среда 1   Физика  (лаб)") = U "Физика (лаб)"
  /\ sanitize_title (U "понедельник") = U ""
  /\ sanitize_title (U "123 Алгебра") = U "123 Алгебра"
  /\ sanitize_title (U "Среда 12 Алгебра") = U "12 Алгебра"
  /\ sanitize_title (U "  Алгебра ") = U "Алгебра".
Proof. repeat split; vm_compute; reflexivity. Qed.

Example e_example :
  e (U "<b>&'x'</b>") = U "&lt;b&gt;&amp;&#x27;x&#x27;&lt;/b&gt;"
  /\ capitalize (U "понедельник") = U "Понедельник"
  /\ room_badge (U "д/о") = [128421; 65039]%N
  /\ sorted_slots = [1; 2; 3; 4].
Proof. repeat split; vm_compute; reflexivity. Qed.

Example format_day_example :
  format_day (U "ИВТ") (U "вторник") 3 (schedule_file physics_world)
  = U "📅 <b>ИВТ — Вторник</b> • неделя #3" ++ nl
    ++ U "1) <code>8:30-10:05</code> • Физика  &lt;🏫202&gt;".
Proof. vm_compute. reflexivity. Qed.

End RenderingExamples.

(** ** Properties of the rendering *)

Section EscapeProperties.

(** What [e] writes for one character. *)
Definition entity (c : char) : str :=
  if (38 =? c)%N then U "&amp;"
  else if (60 =? c)%N then U "&lt;"
  else if (62 =? c)%N then U "&gt;"
  else if (34 =? c)%N then U "&quot;"
  else if (39 =? c)%N then U "&#x27;"
  else [c].

Lemma replace_char c new s :
  replace [c] new s = flat_map (fun x => if (c =? x)%N then new else [x]) s.
Proof.
  unfold replace. induction s as [| x s IH]; [reflexivity |].
  cbn [replace_go startswith flat_map length].
  destruct (c =? x)%N; cbn; now rewrite IH.
Qed.

Lemma e_flat_map s : e s = flat_map entity s.
Proof.
  unfold e. rewrite !replace_char.
  induction s as [| x s IH]; [reflexivity |].
  cbn [flat_map]. rewrite !flat_map_app, IH. f_equal.
  unfold entity.
  destruct (38 =? x)%N; [reflexivity |]. cbn [flat_map app].
  destruct (60 =? x)%N; [reflexivity |]. cbn [flat_map app].
  destruct (62 =? x)%N; [reflexivity |]. cbn [flat_map app].
  destruct (34 =? x)%N; [reflexivity |]. cbn [flat_map app].
  destruct (39 =? x)%N; reflexivity.
Qed.

Lemma entity_cons c : exists h t, entity c = h :: t.
Proof.
  unfold entity.
  repeat match goal with |- context [(?a =? c)%N] => destruct (a =? c)%N end;
    eauto.
Qed.

Lemma entity_prefix c1 c2 r1 r2 :
  entity c1 ++ r1 = entity c2 ++ r2 -> c1 = c2 /\ r1 = r2.
Proof.
  unfold entity.
  repeat match goal with
         | |- context [(?a =? ?c)%N] => destruct (N.eqb_spec a c)
         end; cbn [app]; intros Heq; simplify_eq; auto.
Qed.

Lemma flat_map_entity_inj s1 s2 :
  flat_map entity s1 = flat_map entity s2 -> s1 = s2.
Proof.
  revert s2. induction s1 as [| c1 s1 IH]; intros [| c2 s2]; cbn [flat_map].
  - reflexivity.
  - destruct (entity_cons c2) as (h & t & ->). discriminate.
  - destruct (entity_cons c1) as (h & t & ->). discriminate.
  - intros Heq. apply entity_prefix in Heq as [-> Heq].
    f_equal. now apply IH.
Qed.

(** The five replacements of [e] do not interfere: the result is the
    text with each of the characters & < > and the two quotes replaced
    by its entity, every other character kept, and no ampersand of an
    entity escaped again.  None of < > and the quotes is left. *)
Theorem e_entities s :
  e s = flat_map entity s
  /\ Forall (fun c => c ∉ [60; 62; 34; 39]%N) (e s).
Proof.
  split; [apply e_flat_map |].
  rewrite e_flat_map. induction s as [| x s IH]; [constructor |].
  cbn [flat_map]. apply Forall_app. split; [| exact IH].
  unfold entity.
  repeat match goal with
         | |- context [(?a =? x)%N] => destruct (N.eqb_spec a x)
         end;
    repeat constructor;
    rewrite !elem_of_cons, elem_of_nil; intros Hx; intuition congruence.
Qed.

(** Escaping loses nothing: two texts with the same escaped form are the
    same text. *)
Theorem e_injective s1 s2 : e s1 = e s2 -> s1 = s2.
Proof. rewrite !e_flat_map. apply flat_map_entity_inj. Qed.

End EscapeProperties.

Lemma e_injective_witness :
  e (U "a<b") = e (U "a<b") /\ U "a<b" = U "a<b".
Proof.
  split; [reflexivity | apply (e_injective (U "a<b") (U "a<b")); reflexivity].
Defined.

Section SanitizeProperties.
Context `{UnicodeData} `{UnicodeCase}.

(** Two whitespace characters side by side somewhere in the text. *)
Fixpoint has_run (s : str) : bool :=
  match s with
  | [] => false
  | c :: s' =>
    match s' with
    | d :: _ => is_space c && is_space d
    | [] => false
    end || has_run s'
  end.

Lemma has_run_app a b :
  has_run (a ++ b) = false -> has_run a = false /\ has_run b = false.
Proof.
  induction a as [| c a IH]; cbn [app]; [auto |].
  cbn [has_run]. intros Hab. apply orb_false_elim in Hab as [Hc Hab].
  destruct (IH Hab) as [Ha Hb]. split; [| exact Hb].
  rewrite Ha, orb_false_r. destruct a; [reflexivity | exact Hc].
Qed.

Lemma collapse_go_no_run run s : has_run (collapse_go run s) = false.
Proof.
  revert run. induction s as [| a s IH]; intros run; cbn [collapse_go].
  - destruct run as [| c [| d r]]; reflexivity.
  - destruct (is_space a) eqn:Ea; [apply IH |].
    specialize (IH []).
    assert (Ha : has_run (a :: collapse_go [] s) = false).
    { cbn [has_run]. rewrite Ea, IH. now destruct (collapse_go [] s). }
    destruct run as [| c [| d r]]; cbn [flush_run app]; [exact Ha | |].
    + change (is_space c && is_space a || has_run (a :: collapse_go [] s)
              = false).
      now rewrite Ea, andb_false_r.
    + change (is_space 32 && is_space a || has_run (a :: collapse_go [] s)
              = false).
      now rewrite Ea, andb_false_r.
Qed.

(** A text without runs is what [collapse_go] returns for it. *)
Lemma collapse_go_id run s :
  (length run <= 1)%nat -> blank run -> has_run (rev run ++ s) = false ->
  collapse_go run s = rev run ++ s.
Proof.
  revert run. induction s as [| a s IH]; intros run Hlen Hrun Hs.
  - cbn [collapse_go]. rewrite app_nil_r.
    destruct run as [| c [| d r]]; [reflexivity | reflexivity |].
    cbn [length] in Hlen. lia.
  - cbn [collapse_go]. destruct (is_space a) eqn:Ea.
    + destruct run as [| c run].
      * apply (IH [a]); [cbn; lia | now repeat constructor | exact Hs].
      * exfalso. destruct run; [| cbn [length] in Hlen; lia].
        apply Forall_cons in Hrun as [Hc _].
        cbn in Hs. now rewrite Hc, Ea in Hs.
    + apply has_run_app in Hs as [_ Hs].
      cbn [has_run] in Hs. apply orb_false_elim in Hs as [_ Hs].
      rewrite (IH []); [| cbn; lia | constructor | exact Hs].
      destruct run as [| c [| d r]]; [reflexivity | reflexivity |].
      cbn [length] in Hlen. lia.
Qed.

Lemma sanitize_title_form title :
  exists t, sanitize_title title = strip (collapse_spaces t).
Proof.
  unfold sanitize_title.
  destruct (_ && _)%nat; cbn zeta;
    destruct (leading_day _ _); try destruct (_ =? 1)%nat; eauto.
Qed.

(** Whatever the title, the text shown for it neither starts nor ends
    with whitespace and has no two whitespace characters side by side. *)
Theorem sanitize_title_clean title :
  trimmed is_space (sanitize_title title)
  /\ has_run (sanitize_title title) = false.
Proof.
  destruct (sanitize_title_form title) as (t & ->).
  split; [apply strip_with_trimmed |].
  destruct (strip_decompose (collapse_spaces t)) as (a & b & Ht & _).
  pose proof (collapse_go_no_run [] t) as Hrun.
  fold (collapse_spaces t) in Hrun. rewrite Ht in Hrun.
  apply has_run_app in Hrun as [_ Hrun].
  now apply has_run_app in Hrun as [Hrun _].
Qed.

(** A title that is already clean and whose lowered text starts neither
    with one or two digits nor with the name of a weekday is shown as it
    is. *)
Theorem sanitize_title_keeps title :
  trimmed is_space title -> has_run title = false ->
  (leading_digits (lower title) = 0 \/ 2 < leading_digits (lower title))%nat ->
  leading_day RU_WEEKDAYS (lower title) = None ->
  sanitize_title title = title.
Proof.
  intros Htrim Hrun Hdig Hday.
  assert (Es : strip title = title) by now apply strip_with_id.
  unfold sanitize_title. cbv zeta. rewrite !Es.
  replace ((0 <? _) && (_ <=? 2))%nat with false.
  2: { symmetry. apply andb_false_iff. destruct Hdig as [-> | Hdig]; [now left |].
       right. apply Nat.leb_gt. lia. }
  cbv beta iota zeta. rewrite Hday. unfold collapse_spaces.
  rewrite collapse_go_id; [| cbn; lia | constructor | exact Hrun].
  now apply strip_with_id.
Qed.

End SanitizeProperties.

Lemma sanitize_title_keeps_witness :
  sanitize_title (H := basic_unicode) (H0 := basic_case) (U "Физика (лаб)")
  = U "Физика (лаб)".
Proof.
  apply (sanitize_title_keeps (H := basic_unicode) (H0 := basic_case));
    [split; reflexivity | reflexivity | left; reflexivity | reflexivity].
Defined.

(** *** The noise that [sanitize_title] removes *)

Section SanitizeRepairs.
Context `{UnicodeData} `{UnicodeCase}.

Definition ascii_digit (c : char) : bool := ((48 <=? c) && (c <=? 57))%N.

Lemma ascii_digit_facts c :
  ascii_digit c = true ->
  basic c = true /\ isdigit c = true /\ is_space c = false
  /\ lower_basic c = c.
Proof.
  unfold ascii_digit. intros Hc. apply andb_true_iff in Hc as [H1 H2].
  apply N.leb_le in H1, H2.
  assert (Hc : (c = 48 \/ c = 49 \/ c = 50 \/ c = 51 \/ c = 52 \/ c = 53
                \/ c = 54 \/ c = 55 \/ c = 56 \/ c = 57)%N) by lia.
  repeat (destruct Hc as [-> | Hc]); try subst c; repeat split; reflexivity.
Qed.

Lemma weekday_facts day :
  day ∈ RU_WEEKDAYS ->
  exists d0 dr,
    day = d0 :: dr /\ is_space d0 = false /\ isdigit d0 = false
    /\ forallb basic day = true /\ map lower_basic day = day
    /\ forall x, leading_day RU_WEEKDAYS (day ++ x) = Some day.
Proof.
  unfold RU_WEEKDAYS. rewrite !elem_of_cons, elem_of_nil.
  intros Hday.
  repeat (destruct Hday as [-> | Hday]); [.. | contradiction];
    eexists _, _; repeat split; intros; reflexivity.
Qed.

Lemma cut_app a b : cut (length a) (a ++ b) = lstrip_with is_space b.
Proof.
  unfold cut, slice, slice_index, len. cbn [default from_option].
  unfold id. rewrite length_app.
  destruct (Z.ltb_spec (Z.of_nat (length a)) 0); [lia |].
  destruct (Z.ltb_spec (Z.of_nat (length a + length b)) 0); [lia |].
  rewrite !Z.min_l by lia. rewrite Nat2Z.id, drop_app_length.
  rewrite take_ge; [reflexivity | lia].
Qed.

Lemma cut_space a x r :
  is_space x = false -> cut (length a) (a ++ 32%N :: x :: r) = x :: r.
Proof.
  intros Hx. rewrite cut_app.
  now apply (lstrip_with_app is_space [32%N] (x :: r)); [repeat constructor |].
Qed.

Lemma leading_digits_run num r :
  Forall (fun c => isdigit c = true) num ->
  leading_digits (num ++ 32%N :: r) = length num.
Proof.
  intros Hnum. unfold leading_digits.
  now rewrite span_app.
Qed.

(** A clean title behind the noise of a weekday and a slot digit, with or
    without one or two digits before them, is shown without the noise. *)
Theorem sanitize_title_repairs pre day sd name :
  pre = []
  \/ (exists num, pre = num ++ U " " /\ forallb ascii_digit num = true
                  /\ (1 <= length num <= 2)%nat) ->
  day ∈ RU_WEEKDAYS -> ascii_digit sd = true ->
  name <> [] -> forallb basic name = true ->
  trimmed is_space name -> has_run name = false ->
  sanitize_title (pre ++ day ++ U " " ++ [sd] ++ U " " ++ name) = name.
Proof.
  intros Hpre Hday Hsd Hne Hbasic Htrim Hrun.
  destruct (weekday_facts day Hday)
    as (d0 & dr & Ed & Hd0s & Hd0d & Hdb & Hdl & Hlead).
  destruct (ascii_digit_facts sd Hsd) as (Hsb & Hsdig & Hss & Hsl).
  assert (Hn0 : exists n0 nr, name = n0 :: nr /\ is_space n0 = false).
  { destruct name as [| n0 nr]; [congruence |].
    destruct Htrim as [Hl _]. eauto. }
  destruct Hn0 as (n0 & nr & En & Hn0).
  set (tail := day ++ U " " ++ [sd] ++ U " " ++ name).
  set (ltail := day ++ U " " ++ [sd] ++ U " " ++ map lower_basic name).
  assert (Hp : forallb basic pre = true /\ map lower_basic pre = pre
               /\ match pre ++ tail with
                  | [] => True
                  | c :: _ => is_space c = false
                  end).
  { destruct Hpre as [-> | (num & -> & Hnum & Hlen)].
    - repeat split. subst tail. rewrite Ed. exact Hd0s.
    - rewrite forallb_forall in Hnum.
      assert (Hall : forall c, In c num ->
                basic c = true /\ lower_basic c = c /\ is_space c = false).
      { intros c Hc. destruct (ascii_digit_facts c (Hnum c Hc)); tauto. }
      repeat split.
      + rewrite forallb_app. apply andb_true_iff. split; [| reflexivity].
        apply forallb_forall. intros c Hc. now apply Hall.
      + rewrite map_app. f_equal. rewrite <- (map_id num) at 2.
        apply map_ext_in. intros c Hc. now apply Hall.
      + destruct num as [| c num]; [cbn [length] in Hlen; lia |].
        apply (Hall c). now left. }
  destruct Hp as (Hpb & Hpl & Hp0).
  assert (Es : strip (pre ++ tail) = pre ++ tail).
  { apply strip_with_id. split; [exact Hp0 |].
    subst tail. rewrite !rev_app_distr, <- !app_assoc.
    destruct Htrim as [_ Hr]. destruct (rev name) eqn:Er; [| exact Hr].
    apply (f_equal (@length _)) in Er. rewrite length_rev, En in Er.
    discriminate. }
  assert (El : lower (pre ++ tail) = pre ++ ltail).
  { unfold lower. subst tail ltail.
    rewrite !forallb_app, Hpb, Hdb, Hbasic. cbn [forallb andb].
    rewrite Hsb. cbn [andb]. rewrite !map_app, Hpl, Hdl.
    cbn [map]. now rewrite Hsl. }
  assert (Hstep :
    (let i := leading_digits (pre ++ ltail) in
     if ((0 <? i) && (i <=? 2))%nat
     then (cut i (pre ++ ltail), cut i (pre ++ tail))
     else (pre ++ ltail, pre ++ tail)) = (ltail, tail)).
  { destruct Hpre as [-> | (num & -> & Hnum & Hlen)]; cbv zeta.
    - assert (Ei : leading_digits ([] ++ ltail) = 0%nat).
      { subst ltail. rewrite Ed. unfold leading_digits. cbn [app span].
        now rewrite Hd0d. }
      now rewrite Ei.
    - assert (Ei : leading_digits ((num ++ U " ") ++ ltail) = length num).
      { rewrite <- app_assoc. apply leading_digits_run.
        apply List.Forall_forall. intros c Hc.
        rewrite forallb_forall in Hnum.
        now destruct (ascii_digit_facts c (Hnum c Hc)) as (_ & ? & _). }
      rewrite Ei.
      replace ((0 <? length num) && (length num <=? 2))%nat with true.
      2: { symmetry. apply andb_true_iff.
           split; [apply Nat.ltb_lt | apply Nat.leb_le]; lia. }
      rewrite <- !app_assoc. f_equal.
      + subst ltail. rewrite Ed. now apply cut_space.
      + subst tail. rewrite Ed. now apply cut_space. }
  unfold sanitize_title. cbv zeta in Hstep |- *.
  fold tail. rewrite !Es, !El, Hstep.
  unfold ltail at 1. rewrite Hlead.
  assert (Ecl : cut (length day) ltail = sd :: 32%N :: map lower_basic name).
  { subst ltail. now apply cut_space. }
  assert (Ect : cut (length day) tail = sd :: 32%N :: name).
  { subst tail. now apply cut_space. }
  rewrite !Ecl, !Ect.
  assert (Ej : leading_digits (sd :: 32%N :: map lower_basic name) = 1%nat).
  { now apply (leading_digits_run [sd]); repeat constructor. }
  rewrite !Ej. cbn [Nat.eqb].
  assert (Ek : cut 1 (sd :: 32%N :: name) = name).
  { rewrite En. exact (cut_space [sd] n0 nr Hn0). }
  rewrite Ek.
  unfold collapse_spaces.
  rewrite collapse_go_id; [| cbn; lia | constructor | exact Hrun].
  now apply strip_with_id.
Qed.

End SanitizeRepairs.

Lemma sanitize_title_repairs_witness :
  sanitize_title (H := basic_unicode) (H0 := basic_case)
    (U "01 " ++ U "понедельник" ++ U " " ++ [50%N] ++ U " " ++ U "Алгебра")
  = U "Алгебра".
Proof.
  apply (sanitize_title_repairs (H := basic_unicode) (H0 := basic_case)).
  - right. exists (U "01"). repeat split; cbn; lia.
  - apply list_elem_of_here.
  - reflexivity.
  - discriminate.
  - reflexivity.
  - split; reflexivity.
  - reflexivity.
Defined.

(** *** The day's and the week's view *)

Section FormatProperties.
Context `{UnicodeData} `{UnicodeCase}.

(** The lines that the loop of [format_day] collects over [slots]. *)
Definition shown (doc : schedules_doc) (group day : str) (wk : Z)
    (slots : list Z) : list str :=
  fold_left (add_item (default ∅ (default ∅ (doc !! group) !! day)) wk)
    slots [].

(** What follows the head line. *)
Definition day_body (items : list str) : str :=
  match items with
  | [] => nl ++ U "Пар нет."
  | _ :: _ => nl ++ join nl items
  end.

(** The line of one slot, if it holds a lesson of the week. *)
Definition slot_item (doc : schedules_doc) (group day : str) (wk slot : Z)
    : list str :=
  match stored_at doc group day (str_of_int slot) with
  | Some (Stored lesson) =>
    if lesson_matches_week lesson wk then [lesson_line slot lesson] else []
  | _ => []
  end.

Lemma day_data_lookup doc group day key :
  default ∅ (default ∅ (doc !! group) !! day) !! key
  = stored_at doc group day key.
Proof.
  unfold stored_at. destruct (doc !! group) as [g |]; cbn.
  - destruct (g !! day); cbn; [reflexivity | apply lookup_empty].
  - rewrite lookup_empty. cbn. apply lookup_empty.
Qed.

Lemma add_item_app doc group day wk items slot :
  add_item (default ∅ (default ∅ (doc !! group) !! day)) wk items slot
  = items ++ slot_item doc group day wk slot.
Proof.
  unfold add_item, slot_item. rewrite day_data_lookup.
  destruct (stored_at doc group day (str_of_int slot)) as [[| l] |];
    rewrite ?app_nil_r; try reflexivity.
  destruct (lesson_matches_week l wk); now rewrite ?app_nil_r.
Qed.

Lemma fold_add_item doc group day wk slots items :
  fold_left (add_item (default ∅ (default ∅ (doc !! group) !! day)) wk)
    slots items
  = items ++ flat_map (slot_item doc group day wk) slots.
Proof.
  revert items. induction slots as [| k slots IH]; intros items;
    cbn [fold_left flat_map]; [now rewrite app_nil_r |].
  now rewrite IH, add_item_app, <- app_assoc.
Qed.

Lemma shown_flat_map doc group day wk slots :
  shown doc group day wk slots = flat_map (slot_item doc group day wk) slots.
Proof. apply (fold_add_item doc group day wk slots []). Qed.

Lemma sorted_slots_eq : sorted_slots = [1; 2; 3; 4].
Proof. reflexivity. Qed.

Lemma format_day_shown group day wk doc :
  format_day group day wk doc
  = day_head group day wk ++ day_body (shown doc group day wk sorted_slots).
Proof. reflexivity. Qed.

Lemma slot_cases k : 1 <= k <= 4 -> k = 1 \/ k = 2 \/ k = 3 \/ k = 4.
Proof. lia. Qed.

Lemma slot_key_inj k k' :
  1 <= k <= 4 -> 1 <= k' <= 4 -> str_of_int k = str_of_int k' -> k = k'.
Proof.
  intros Hk Hk'. apply slot_cases in Hk, Hk'.
  destruct Hk as [-> | [-> | [-> | ->]]];
    destruct Hk' as [-> | [-> | [-> | ->]]];
    vm_compute; intros Heq; congruence.
Qed.

(** A lesson's line starts with the digit of its slot. *)
Lemma lesson_line_head k lesson :
  1 <= k <= 4 ->
  exists c r, lesson_line k lesson = c :: r /\ (49 <= c <= 52)%N.
Proof.
  intros Hk. apply slot_cases in Hk. unfold lesson_line.
  destruct Hk as [-> | [-> | [-> | ->]]].
  - change (str_of_int 1) with [49%N]. eexists _, _. split; [reflexivity | lia].
  - change (str_of_int 2) with [50%N]. eexists _, _. split; [reflexivity | lia].
  - change (str_of_int 3) with [51%N]. eexists _, _. split; [reflexivity | lia].
  - change (str_of_int 4) with [52%N]. eexists _, _. split; [reflexivity | lia].
Qed.

Lemma flat_map_head {A B} (f : A -> list B) l x xs :
  flat_map f l = x :: xs -> exists k r, k ∈ l /\ f k = x :: r.
Proof.
  induction l as [| a l IH]; cbn [flat_map]; [discriminate |].
  destruct (f a) as [| y r] eqn:Ea.
  - intros Heq. destruct (IH Heq) as (k & r' & Hk & Hf).
    exists k, r'. split; [now apply list_elem_of_further | exact Hf].
  - intros Heq. inversion Heq; subst. exists a, r.
    split; [apply list_elem_of_here | exact Ea].
Qed.

Lemma slot_item_before_start doc group day wk k :
  wk <= 0 -> slot_item doc group day wk k = [].
Proof.
  intros Hwk. unfold slot_item.
  destruct (stored_at doc group day (str_of_int k)) as [[| l] |];
    try reflexivity.
  unfold lesson_matches_week.
  now destruct (Z.leb_spec wk 0); [| lia].
Qed.

(** The day's view says that there are no lessons exactly when none of
    the four slots of the day holds a lesson that takes place in the
    week; a slot that is missing or holds [null] counts as empty. *)
Theorem format_day_none group day wk doc :
  format_day group day wk doc = day_head group day wk ++ nl ++ U "Пар нет."
  <-> forall slot lesson,
        1 <= slot <= 4 ->
        stored_at doc group day (str_of_int slot) = Some (Stored lesson) ->
        lesson_matches_week lesson wk = false.
Proof.
  rewrite format_day_shown, shown_flat_map, sorted_slots_eq. split.
  - intros Heq slot lesson Hs Hst. apply app_inv_head in Heq.
    destruct (lesson_matches_week lesson wk) eqn:Em; [exfalso | reflexivity].
    destruct (flat_map (slot_item doc group day wk) [1; 2; 3; 4])
      as [| x xs] eqn:Ef.
    + assert (Hin : lesson_line slot lesson
                    ∈ flat_map (slot_item doc group day wk) [1; 2; 3; 4]).
      { apply list_elem_of_In, in_flat_map. exists slot. split.
        - apply slot_cases in Hs. cbn.
          destruct Hs as [-> | [-> | [-> | ->]]]; auto.
        - unfold slot_item. rewrite Hst, Em. now left. }
      rewrite Ef in Hin. now apply elem_of_nil in Hin.
    + apply flat_map_head in Ef as (k & r & Hk & Hf).
      assert (Hk' : 1 <= k <= 4).
      { rewrite !elem_of_cons, elem_of_nil in Hk. lia. }
      unfold slot_item in Hf.
      destruct (stored_at doc group day (str_of_int k)) as [[| l] |];
        try discriminate.
      destruct (lesson_matches_week l wk); [| discriminate].
      inversion Hf; subst x r.
      destruct (lesson_line_head k l Hk') as (c & r & El & Hc).
      unfold day_body in Heq. apply app_inv_head in Heq.
      rewrite El in Heq. destruct xs; cbn in Heq; inversion Heq; lia.
  - intros Hno.
    assert (Hnil : forall k, 1 <= k <= 4 ->
              slot_item doc group day wk k = []).
    { intros k Hk. unfold slot_item.
      destruct (stored_at doc group day (str_of_int k)) as [[| l] |] eqn:Est;
        try reflexivity.
      now rewrite (Hno k l Hk Est). }
    cbn [flat_map]. rewrite !Hnil by lia. reflexivity.
Qed.

End FormatProperties.

Section ViewAfterAdd.
Context `{UnicodeData} `{UnicodeCase}.
Variable ADMIN_ID : Z.

Lemma slot_item_store_same doc group day wk slot lesson :
  slot_item (store_lesson doc group day (str_of_int slot) lesson)
    group day wk slot
  = if lesson_matches_week lesson wk then [lesson_line slot lesson] else [].
Proof. unfold slot_item. now rewrite stored_at_store_lesson. Qed.

Lemma slot_item_store_other doc group day wk slot lesson k :
  1 <= slot <= 4 -> 1 <= k <= 4 -> k <> slot ->
  slot_item (store_lesson doc group day (str_of_int slot) lesson)
    group day wk k
  = slot_item doc group day wk k.
Proof.
  intros Hs Hk Hne. unfold slot_item.
  rewrite stored_at_store_lesson_other; [reflexivity |].
  intros Heq. inversion Heq as [Hkey].
  now apply slot_key_inj in Hkey.
Qed.

(** After the administrator has added a lesson, the view of its day
    shows, for any week, the lines of the earlier slots as before, then
    the line of the new lesson if it takes place in that week, then the
    lines of the later slots as before; whatever was stored at the slot
    is no longer shown. *)
Theorem add_lesson_shown from_user command_args w group day slot lesson wk :
  is_admin ADMIN_ID from_user = true ->
  parse_add_lesson_args (strip (default (U "") command_args))
  = inl (group, day, slot, lesson) ->
  let doc := schedule_file w in
  let doc' := schedule_file (add_lesson ADMIN_ID from_user command_args w).2 in
  format_day group day wk doc'
  = day_head group day wk
    ++ day_body
         (shown doc group day wk (filter (fun k => k < slot) sorted_slots)
          ++ (if lesson_matches_week lesson wk
              then [lesson_line slot lesson] else [])
          ++ shown doc group day wk (filter (fun k => slot < k) sorted_slots)).
Proof.
  intros Ha Hp doc doc'. subst doc'.
  rewrite (add_lesson_run _ _ _ w _ _ _ _ Ha Hp).
  cbn [snd schedule_file saved_and_replied]. fold doc.
  destruct (parse_add_checks _ _ _ _ _ Hp) as [_ Hslot].
  apply in_SLOTS_range in Hslot.
  rewrite format_day_shown, !shown_flat_map, sorted_slots_eq.
  f_equal. f_equal.
  destruct (slot_cases slot Hslot) as [-> | [-> | [-> | ->]]].
  - change (filter (fun k => k < 1) [1; 2; 3; 4]) with (@nil Z).
    change (filter (fun k => 1 < k) [1; 2; 3; 4]) with [2; 3; 4].
    cbn [flat_map app].
    rewrite slot_item_store_same, !slot_item_store_other by lia.
    reflexivity.
  - change (filter (fun k => k < 2) [1; 2; 3; 4]) with [1].
    change (filter (fun k => 2 < k) [1; 2; 3; 4]) with [3; 4].
    cbn [flat_map app].
    rewrite slot_item_store_same, !slot_item_store_other by lia.
    now rewrite !app_nil_r.
  - change (filter (fun k => k < 3) [1; 2; 3; 4]) with [1; 2].
    change (filter (fun k => 3 < k) [1; 2; 3; 4]) with [4].
    cbn [flat_map app].
    rewrite slot_item_store_same, !slot_item_store_other by lia.
    now rewrite !app_nil_r, <- !app_assoc.
  - change (filter (fun k => k < 4) [1; 2; 3; 4]) with [1; 2; 3].
    change (filter (fun k => 4 < k) [1; 2; 3; 4]) with (@nil Z).
    cbn [flat_map app].
    rewrite slot_item_store_same, !slot_item_store_other by lia.
    now rewrite !app_nil_r, <- !app_assoc.
Qed.

(** Before the first day of the semester the week's view shows no lesson
    on any day, whatever the timetable holds: the week is numbered 0 and
    every day has the mark that there are no lessons. *)
Theorem format_week_before_start today group start_dt doc :
  days_between today start_dt < 0 ->
  format_week today group start_dt doc
  = join nl
      ((U "🗓️ <b>" ++ e group
        ++ U " — расписание на неделю (текущая неделя #0)</b>")
       :: flat_map
            (fun dname =>
               [nl ++ U "<b>" ++ e (capitalize dname) ++ U "</b>";
                U "— нет пар"])
            RU_WEEKDAYS).
Proof.
  intros Hd. unfold format_week.
  assert (Ew : week_number today start_dt = 0).
  { unfold week_number. now destruct (Z.geb_spec (days_between today start_dt) 0);
      [lia |]. }
  rewrite Ew. f_equal. f_equal.
  apply flat_map_ext. intros dname. unfold week_day_lines.
  rewrite fold_add_item, sorted_slots_eq. cbn [flat_map app].
  now rewrite !slot_item_before_start by lia.
Qed.

End ViewAfterAdd.

Definition aug_26 : date := {| year := 2024; month := 8; day := 26 |}.

Lemma add_lesson_shown_witness :
  format_day (H := basic_unicode) (H0 := basic_case)
    (U "ИВТ") (U "вторник") 3
    (schedule_file
       (add_lesson (H := basic_unicode) 7 7
          (Some (U " ИВТ вторник 1 Физика() 202")) monday_world).2)
  = day_head (H0 := basic_case) (U "ИВТ") (U "вторник") 3
    ++ day_body
         (shown (H := basic_unicode) (H0 := basic_case)
            (schedule_file monday_world) (U "ИВТ") (U "вторник") 3
            (filter (fun k => k < 1) sorted_slots)
          ++ (if lesson_matches_week physics 3
              then [lesson_line (H := basic_unicode) (H0 := basic_case)
                      1 physics]
              else [])
          ++ shown (H := basic_unicode) (H0 := basic_case)
               (schedule_file monday_world) (U "ИВТ") (U "вторник") 3
               (filter (fun k => 1 < k) sorted_slots)).
Proof.
  exact (add_lesson_shown (H := basic_unicode) (H0 := basic_case) 7 7
           (Some (U " ИВТ вторник 1 Физика() 202")) monday_world
           (U "ИВТ") (U "вторник") 1 physics 3 eq_refl
           ltac:(vm_compute; reflexivity)).
Defined.

Lemma format_week_before_start_witness :
  days_between aug_26 sept_2 < 0
  /\ format_week (H := basic_unicode) (H0 := basic_case) aug_26 (U "ИВТ")
       sept_2 (schedule_file physics_world)
     = join nl
         ((U "🗓️ <b>" ++ e (U "ИВТ")
           ++ U " — расписание на неделю (текущая неделя #0)</b>")
          :: flat_map
               (fun dname =>
                  [nl ++ U "<b>" ++ e (capitalize (H0 := basic_case) dname)
                   ++ U "</b>";
                   U "— нет пар"])
               RU_WEEKDAYS).
Proof.
  split; [reflexivity |].
  apply (format_week_before_start (H := basic_unicode) (H0 := basic_case)
           aug_26 (U "ИВТ") sept_2 (schedule_file physics_world)).
  reflexivity.
Defined.

(** * The weekday of a date

    [weekday_ru] of lines 160-161.  [date.weekday()] is the ordinal of the
    date, shifted so that Monday is 0, modulo 7. *)

Definition weekday (d : date) : Z := (toordinal d + 6) mod 7.

(** [RU_WEEKDAYS[dt.weekday()]] *)
Definition weekday_ru (dt : date) : str :=
  nth (Z.to_nat (weekday dt)) RU_WEEKDAYS [].

Example weekday_ru_ex :
  weekday_ru sept_2 = U "понедельник" /\ weekday_ru sept_16 = U "понедельник"
  /\ weekday_ru {| year := 2024; month := 9; day := 8 |} = U "воскресенье".
Proof. repeat split; vm_compute; reflexivity. Qed.

Section WeekTurn.

Lemma weekday_range d : 0 <= weekday d < 7.
Proof. unfold weekday. apply Z.mod_pos_bound. lia. Qed.

Lemma weekday_ru_inj a b : weekday_ru a = weekday_ru b -> weekday a = weekday b.
Proof.
  unfold weekday_ru.
  pose proof (weekday_range a) as Ha. pose proof (weekday_range b) as Hb.
  assert (Ca : weekday a = 0 \/ weekday a = 1 \/ weekday a = 2 \/ weekday a = 3
               \/ weekday a = 4 \/ weekday a = 5 \/ weekday a = 6) by lia.
  assert (Cb : weekday b = 0 \/ weekday b = 1 \/ weekday b = 2 \/ weekday b = 3
               \/ weekday b = 4 \/ weekday b = 5 \/ weekday b = 6) by lia.
  clear Ha Hb.
  repeat (destruct Ca as [-> | Ca]); try rewrite Ca;
    repeat (destruct Cb as [-> | Cb]); try rewrite Cb;
    vm_compute; congruence.
Qed.

(** The week of the bot turns over on the weekday of the semester's first
    day: from a day of the semester to the next day the week number goes
    up by one when the next day falls on that weekday, and stays
    otherwise.  The day is never outside [RU_WEEKDAYS]. *)
Theorem week_turns_on_start_weekday today tomorrow start :
  0 <= days_between today start ->
  toordinal tomorrow = toordinal today + 1 ->
  weekday_ru tomorrow ∈ RU_WEEKDAYS
  /\ week_number tomorrow start
     = if bool_decide (weekday_ru tomorrow = weekday_ru start)
       then week_number today start + 1
       else week_number today start.
Proof.
  intros Hd Ht. split.
  { unfold weekday_ru. apply list_elem_of_In, nth_In.
    pose proof (weekday_range tomorrow). cbn [length RU_WEEKDAYS]. lia. }
  assert (Hw : weekday tomorrow = weekday start
               <-> (days_between today start + 1) mod 7 = 0).
  { unfold weekday, days_between. rewrite Ht.
    generalize (toordinal today) (toordinal start). intros x y.
    split; intros Hm.
    - pose proof (Z.mod_pos_bound (x + 1 + 6) 7 ltac:(lia)).
      pose proof (Z.div_mod (x + 1 + 6) 7 ltac:(lia)).
      pose proof (Z.div_mod (y + 6) 7 ltac:(lia)).
      apply Z.mod_divide; [lia |].
      exists ((x + 1 + 6) / 7 - (y + 6) / 7). lia.
    - apply Z.mod_divide in Hm as [q Hq]; [| lia].
      replace (x + 1 + 6) with (y + 6 + q * 7) by lia.
      apply Z.mod_add. lia. }
  unfold week_number. unfold days_between in *. rewrite Ht.
  destruct (Z.geb_spec (toordinal today + 1 - toordinal start) 0); [| lia].
  destruct (Z.geb_spec (toordinal today - toordinal start) 0); [| lia].
  destruct (bool_decide _) eqn:Eb.
  - apply bool_decide_eq_true, weekday_ru_inj in Eb. apply Hw in Eb.
    replace (toordinal today + 1 - toordinal start) with
      (toordinal today - toordinal start + 1) by lia.
    revert Eb. generalize (toordinal today - toordinal start). intros z Hz.
    pose proof (Z.div_mod (z + 1) 7 ltac:(lia)).
    pose proof (Z.div_mod z 7 ltac:(lia)).
    pose proof (Z.mod_pos_bound z 7 ltac:(lia)). lia.
  - apply bool_decide_eq_false in Eb.
    assert (Hn : (toordinal today - toordinal start + 1) mod 7 <> 0).
    { intros Hz. apply Hw in Hz. apply Eb. unfold weekday_ru. now rewrite Hz. }
    replace (toordinal today + 1 - toordinal start) with
      (toordinal today - toordinal start + 1) by lia.
    revert Hn. generalize (toordinal today - toordinal start). intros z Hz.
    pose proof (Z.div_mod (z + 1) 7 ltac:(lia)).
    pose proof (Z.div_mod z 7 ltac:(lia)).
    pose proof (Z.mod_pos_bound z 7 ltac:(lia)).
    pose proof (Z.mod_pos_bound (z + 1) 7 ltac:(lia)). lia.
Qed.

End WeekTurn.

Definition sept_8 : date := {| year := 2024; month := 9; day := 8 |}.
Definition sept_9 : date := {| year := 2024; month := 9; day := 9 |}.

Lemma week_turns_on_start_weekday_witness :
  weekday_ru sept_9 ∈ RU_WEEKDAYS
  /\ week_number sept_9 sept_2
     = if bool_decide (weekday_ru sept_9 = weekday_ru sept_2)
       then week_number sept_8 sept_2 + 1
       else week_number sept_8 sept_2.
Proof.
  apply (week_turns_on_start_weekday sept_8 sept_9 sept_2).
  - vm_compute. discriminate.
  - reflexivity.
Defined.

(** The unconditional properties at concrete inputs. *)

Lemma parse_weeks_invariant_witness :
  StronglySorted Z.lt (parse_weeks (H := basic_unicode) (U "3,1-2") 30)
  /\ (forall w, w ∈ parse_weeks (H := basic_unicode) (U "3,1-2") 30 ->
                1 <= w <= 30)
  /\ (parse_weeks (H := basic_unicode) (U "3,1-2") 30 = [] <-> 30 < 1).
Proof.
  exact (parse_weeks_invariant (H := basic_unicode) (U "3,1-2") 30).
Defined.

Lemma week_number_window_witness :
  week_number sept_16 sept_2 = 3
  <-> (3 = 0 /\ days_between sept_16 sept_2 < 0)
      \/ (1 <= 3 /\ 7 * (3 - 1) <= days_between sept_16 sept_2 < 7 * 3).
Proof. exact (week_number_window sept_16 sept_2 3). Defined.

Lemma e_entities_witness :
  e (U "a<b") = flat_map entity (U "a<b")
  /\ Forall (fun c => c ∉ [60; 62; 34; 39]%N) (e (U "a<b")).
Proof. exact (e_entities (U "a<b")). Defined.

Lemma sanitize_title_clean_witness :
  trimmed is_space
    (sanitize_title (H := basic_unicode) (H0 := basic_case)
       (U "01 Среда 1   Физика  (лаб)"))
  /\ has_run
       (sanitize_title (H := basic_unicode) (H0 := basic_case)
          (U "01 Среда 1   Физика  (лаб)")) = false.
Proof.
  exact (sanitize_title_clean (H := basic_unicode) (H0 := basic_case)
           (U "01 Среда 1   Физика  (лаб)")).
Defined.

Lemma format_day_none_witness :
  format_day (H := basic_unicode) (H0 := basic_case)
    (U "ИВТ") (U "вторник") 31 (schedule_file physics_world)
  = day_head (H0 := basic_case) (U "ИВТ") (U "вторник") 31
    ++ nl ++ U "Пар нет."
  <-> forall slot lesson,
        1 <= slot <= 4 ->
        stored_at (schedule_file physics_world) (U "ИВТ") (U "вторник")
          (str_of_int slot) = Some (Stored lesson) ->
        lesson_matches_week lesson 31 = false.
Proof.
  exact (format_day_none (H := basic_unicode) (H0 := basic_case)
           (U "ИВТ") (U "вторник") 31 (schedule_file physics_world)).
Defined.
